(** * Game of Life widget: the grid engine and the run/pause state machine

    Shallow embedding of [src/components/GameOfLife.tsx].  The grid is a JS
    array of arrays of booleans and is modelled as a list of lists; [map]
    with an index is stdpp's [imap]; JS numbers that are used as indices are
    integers and are modelled in [Z], with [NaN] (the result of [% 0]) as
    [None]. *)

From Stdlib Require Import ZArith QArith Lia.
From stdpp Require Import base tactics option numbers list strings.

Local Open Scope Z_scope.

(** ** JavaScript primitives used by the component *)

Module JS.

(** [a % b] on integers: the sign follows the dividend, and the result is
    [NaN] when the divisor is zero. *)
Definition rem (a b : Z) : option Z :=
  if b =? 0 then None else Some (Z.rem a b).

(** [arr[i]] for an integer-valued number [i]: [undefined] out of range. *)
Definition get {A} (arr : list A) (i : Z) : option A :=
  if 0 <=? i then arr !! Z.to_nat i else None.

(** [arr[r]?.[c]] *)
Definition get2 {A} (arr : list (list A)) (r c : Z) : option A :=
  match get arr r with
  | Some row => get row c
  | None => None
  end.

(** Truthiness of a value that is a boolean or [undefined]. *)
Definition truthy (v : option bool) : bool := default false v.

(** [Array.from({ length: n }, f)] *)
Definition Array_from {A} (n : nat) (f : nat → A) : list A := f <$> seq 0 n.

End JS.

(** ** Data model (lines 4-9) *)

Abbreviation Cell := bool (only parsing).
Abbreviation Grid := (list (list bool)) (only parsing).

Definition CELL_SIZE : Z := 10.
Definition WIDTH : Z := 1920.
Definition HEIGHT : Z := 1080.
(** [0.8] is not a binary fraction: the constant is the double nearest to
    it, 3602879701896397 / 2^52, a little above 8/10.  [Math.random()]
    returns doubles, which are rationals. *)
Definition RANDOM : Q := (3602879701896397 # 4503599627370496)%Q.

(** ** countNeighbors (lines 52-82) *)

Definition numRowsOf (grid : Grid) : Z := Z.of_nat (length grid).

(** [grid[0]?.length || 0] *)
Definition numColsOf (grid : Grid) : Z :=
  match grid !! 0%nat with
  | Some row0 => Z.of_nat (length row0)
  | None => 0
  end.

(** The two loop variables range over [-1, 0, 1]. *)
Definition offsets : list Z := [-1; 0; 1].

(** The position probed for the offset [(i, j)]: lines 63-64 compute it and
    lines 67-72 let it through only when it lies inside the grid.  A [NaN]
    fails every comparison. *)
Definition neighborIndex (grid : Grid) (row col i j : Z) : option (Z * Z) :=
  let numRows := numRowsOf grid in
  let numCols := numColsOf grid in
  match JS.rem (row + i + numRows) numRows, JS.rem (col + j + numCols) numCols with
  | Some neighborsRow, Some neighborsColumn =>
      if (0 <=? neighborsRow) && (neighborsRow <? numRows)
         && (0 <=? neighborsColumn) && (neighborsColumn <? numCols)
      then Some (neighborsRow, neighborsColumn)
      else None
  | _, _ => None
  end.

(** Line 74: [grid[neighborsRow]?.[neighborsColumn]] is truthy. *)
Definition neighborAlive (grid : Grid) (row col i j : Z) : bool :=
  match neighborIndex grid row col i j with
  | Some (neighborsRow, neighborsColumn) =>
      JS.truthy (JS.get2 grid neighborsRow neighborsColumn)
  | None => false
  end.

Definition countNeighbors (grid : Grid) (row col : Z) : Z :=
  foldl (λ count i,
    foldl (λ count j,
      if (i =? 0) && (j =? 0) then count
      else if neighborAlive grid row col i j then count + 1 else count)
      count offsets)
    0 offsets.

(** The array reads performed by one call of [countNeighbors], in order. *)
Definition neighborReads (grid : Grid) (row col : Z) : list (Z * Z) :=
  foldl (λ reads i,
    foldl (λ reads j,
      if (i =? 0) && (j =? 0) then reads
      else match neighborIndex grid row col i j with
           | Some p => reads ++ [p]
           | None => reads
           end)
      reads offsets)
    [] offsets.

(** ** updateGrid (lines 39-50): the grid that is passed to [setCells] *)

Definition nextCell (cell : Cell) (neighbors : Z) : Cell :=
  if cell then (neighbors =? 2) || (neighbors =? 3) else neighbors =? 3.

Definition updateGrid (cells : Grid) : Grid :=
  imap (λ rowIndex row,
    imap (λ cellIndex cell,
      let neighbors := countNeighbors cells (Z.of_nat rowIndex) (Z.of_nat cellIndex) in
      nextCell cell neighbors) row) cells.

(** ** random and clear (lines 93-119) *)

Definition gridRows : nat := Z.to_nat (HEIGHT / CELL_SIZE).
Definition gridCols : nat := Z.to_nat (WIDTH / CELL_SIZE).

(** [draws r c] is the value [Math.random()] returns for the cell [(r, c)]. *)
Definition randomGrid (draws : nat → nat → Q) : Grid :=
  JS.Array_from gridRows (λ r,
    JS.Array_from gridCols (λ c, negb (Qle_bool (draws r c) RANDOM))).

Definition clearGrid : Grid :=
  JS.Array_from gridRows (λ _, JS.Array_from gridCols (λ _, false)).

(** ** addGlider (lines 140-168) *)

Definition glider : Grid :=
  [ [true; true; true];
    [true; false; false];
    [false; true; false] ].

Definition gliderWidth : Z :=
  match glider !! 0%nat with
  | Some g0 => Z.of_nat (length g0)
  | None => 0
  end.

(** [newGrid] before the cast of line 167: a cell read from [glider] may be
    [undefined] as far as the types go. *)
Definition addGliderRaw (cells : Grid) (mouseOverCell : option (Z * Z))
  : list (list (option Cell)) :=
  let inputRow := match mouseOverCell with Some m => m.1 | None => 50 end in
  let inputColumn := match mouseOverCell with Some m => m.2 | None => 50 end in
  imap (λ rowIndex row,
    imap (λ cellIndex cell,
      if (inputRow <=? Z.of_nat rowIndex)
         && (Z.of_nat rowIndex <? inputRow + Z.of_nat (length glider))
         && (inputColumn <=? Z.of_nat cellIndex)
         && (Z.of_nat cellIndex <? inputColumn + gliderWidth)
      then JS.get2 glider (Z.of_nat rowIndex - inputRow) (Z.of_nat cellIndex - inputColumn)
      else Some cell) row) cells.

(** The grid stored by [setCells(newGrid as Grid)]; every reader of [cells]
    only tests a cell for truthiness. *)
Definition addGlider (cells : Grid) (mouseOverCell : option (Z * Z)) : Grid :=
  (λ row : list (option Cell), JS.truthy <$> row) <$> addGliderRaw cells mouseOverCell.

(** ** toggleCell (lines 241-264); [x], [y] are the pixel coordinates
       relative to the canvas, taken as whole pixels.  The handler never
       indexes the grid: it maps over it and compares indices. *)

Definition cellOfPixel (x y : Z) : Z * Z :=
  (y / CELL_SIZE, x / CELL_SIZE).   (* Math.floor(y / CELL_SIZE), Math.floor(x / CELL_SIZE) *)

Definition toggleCell (cells : Grid) (x y : Z) : Grid :=
  let rowIndex := (cellOfPixel x y).1 in
  let cellIndex := (cellOfPixel x y).2 in
  imap (λ rIndex row,
    if Z.of_nat rIndex =? rowIndex
    then imap (λ cIndex cell, if Z.of_nat cIndex =? cellIndex then negb cell else cell) row
    else row) cells.

(** ** Component state (lines 18-37)

    [inView] is the value of the [useInView] hook and [showName] the prop
    owned by the embedding context. *)

Record State := mkState {
  cells : Grid;
  mouseOverCell : option (Z * Z);
  systemRunning : bool;
  userRunning : bool;
  running : bool;
  showControls : bool;
  inView : bool;
  showName : bool
}.

Definition setCells (g : Grid) (s : State) : State :=
  mkState g (mouseOverCell s) (systemRunning s) (userRunning s) (running s)
          (showControls s) (inView s) (showName s).
Definition setMouseOverCell (m : option (Z * Z)) (s : State) : State :=
  mkState (cells s) m (systemRunning s) (userRunning s) (running s)
          (showControls s) (inView s) (showName s).
Definition setSystemRunning (b : bool) (s : State) : State :=
  mkState (cells s) (mouseOverCell s) b (userRunning s) (running s)
          (showControls s) (inView s) (showName s).
Definition setUserRunning (b : bool) (s : State) : State :=
  mkState (cells s) (mouseOverCell s) (systemRunning s) b (running s)
          (showControls s) (inView s) (showName s).
Definition setRunning (b : bool) (s : State) : State :=
  mkState (cells s) (mouseOverCell s) (systemRunning s) (userRunning s) b
          (showControls s) (inView s) (showName s).
Definition setShowControls (b : bool) (s : State) : State :=
  mkState (cells s) (mouseOverCell s) (systemRunning s) (userRunning s) (running s)
          b (inView s) (showName s).
Definition setInView (b : bool) (s : State) : State :=
  mkState (cells s) (mouseOverCell s) (systemRunning s) (userRunning s) (running s)
          (showControls s) b (showName s).
Definition setShowName (b : bool) (s : State) : State :=
  mkState (cells s) (mouseOverCell s) (systemRunning s) (userRunning s) (running s)
          (showControls s) (inView s) b.

(** ** Event handlers *)

Inductive Event :=
  | KeyDown (key : string)        (* window keydown *)
  | Click (x y : Z)               (* canvas click *)
  | MouseMove (x y : Z)           (* canvas mousemove *)
  | MouseOut                      (* canvas mouseout *)
  | Tick                          (* the interval timer of lines 355-367 fires *)
  | InViewChanged (visible : bool) (* the intersection observer reports *)
  | MenuButton
  | RunButton
  | StepButton
  | RandomButton
  | ClearButton
  | NameButton
  | FullScreenButton
  | GliderButton.

Section Handlers.

(** Whether the embedding context supplied [setShowName], and the values
    [Math.random()] returns during one call of [random]. *)
Variable hasSetShowName : bool.
Variable draws : nat → nat → Q.

Definition handleRunClick (s : State) : State :=
  setUserRunning (negb (userRunning s)) s.

Definition step (s : State) : State :=
  if running s then s else setCells (updateGrid (cells s)) s.

Definition random (s : State) : State := setCells (randomGrid draws) s.

Definition clear (s : State) : State := setCells clearGrid s.

(** [fullScreen] only talks to the document; the component state is left
    as it is. *)
Definition fullScreen (s : State) : State := s.

Definition addGliderHandler (s : State) : State :=
  setCells (addGlider (cells s) (mouseOverCell s)) s.

Definition handleMouseOver (x y : Z) (s : State) : State :=
  setMouseOverCell (Some (cellOfPixel x y)) s.

Definition handleMouseOut (s : State) : State := setMouseOverCell None s.

Definition handleKeyDown (key : string) (s : State) : State :=
  if String.eqb key " " then setUserRunning (negb (userRunning s)) s
  else if String.eqb key "r" then random s
  else if String.eqb key "c" then clear s
  else if String.eqb key "s" then step s
  else if String.eqb key "p" then setRunning (negb (running s)) s
  else if String.eqb key "m" then setShowControls (negb (showControls s)) s
  else if String.eqb key "n" then
    (if hasSetShowName then setShowName (negb (showName s)) s else s)
  else if String.eqb key "f" then fullScreen s
  else if String.eqb key "g" then addGliderHandler s
  else s.

(** The timer exists only while [running] holds (lines 358-364); the
    control buttons other than the menu button are rendered only while
    [showControls] holds (line 405). *)
Definition handle (e : Event) (s : State) : State :=
  match e with
  | KeyDown key => handleKeyDown key s
  | Click x y => setCells (toggleCell (cells s) x y) s
  | MouseMove x y => handleMouseOver x y s
  | MouseOut => handleMouseOut s
  | Tick => if running s then setCells (updateGrid (cells s)) s else s
  | InViewChanged visible => setInView visible s
  | MenuButton => setShowControls (negb (showControls s)) s
  | RunButton => if showControls s then handleRunClick s else s
  | StepButton => if showControls s then step s else s
  | RandomButton => if showControls s then random s else s
  | ClearButton => if showControls s then clear s else s
  | NameButton =>
      if showControls s && hasSetShowName
      then setShowName (negb (showName s)) s else s
  | FullScreenButton => if showControls s then fullScreen s else s
  | GliderButton => if showControls s then addGliderHandler s else s
  end.

(** The effects of lines 369-383, run after the render [new] that follows
    the render [old]: each one runs when one of its dependencies
    changed. *)
Definition runEffects (old new : State) : State :=
  let s1 :=
    if Bool.eqb (inView old) (inView new) then new
    else if negb (inView new) then setSystemRunning false new
         else setSystemRunning true new in
  if Bool.eqb (systemRunning old) (systemRunning new)
     && Bool.eqb (userRunning old) (userRunning new)
  then s1
  else if systemRunning new && userRunning new then setRunning true s1
       else setRunning false s1.

(** The state an effect sets causes one more render, whose effects run in
    turn; after the second round nothing changes any more
    ([runEffects_quiescent]). *)
Definition settle (old new : State) : State :=
  let s2 := runEffects old new in
  runEffects new s2.

Definition dispatch (e : Event) (s : State) : State := settle s (handle e s).

End Handlers.

(** The initial render (lines 20-37) and the effects of the mount, where
    every effect runs once. *)
Definition initialState (draws : nat → nat → Q) (inView0 showName0 : bool) : State :=
  mkState (randomGrid draws) None true true true false inView0 showName0.

Definition mountEffects (s : State) : State :=
  let s1 := if negb (inView s) then setSystemRunning false s
            else setSystemRunning true s in
  if systemRunning s && userRunning s then setRunning true s1
  else setRunning false s1.

Definition mount (draws : nat → nat → Q) (inView0 showName0 : bool) : State :=
  let s0 := initialState draws inView0 showName0 in
  runEffects s0 (mountEffects s0).

(** States the widget can be in: a run of events, each with the random
    draws it consumes. *)
Inductive reachable (hasSetShowName : bool) : State → Prop :=
  | reachable_mount draws inView0 showName0 :
      reachable hasSetShowName (mount draws inView0 showName0)
  | reachable_dispatch draws e s :
      reachable hasSetShowName s →
      reachable hasSetShowName (dispatch hasSetShowName draws e s).

Fixpoint run (hasSetShowName : bool) (draws : nat → nat → Q)
    (es : list Event) (s : State) : State :=
  match es with
  | [] => s
  | e :: es' => run hasSetShowName draws es' (dispatch hasSetShowName draws e s)
  end.

(** ** drawGrid (lines 171-226)

    The calls made on the 2D context, in order.  [canvasReady] says that
    the canvas element and its 2D context exist; [windowsWidth] and
    [windowsHeight] are [window.innerWidth] and [window.innerHeight]. *)

Inductive Draw :=
  | clearRect (x y w h : Z)
  | beginPath
  | rect (x y w h : Z)
  | fillStyle (color : string)
  | fill
  | stroke.

(** The body of the inner [forEach] (lines 182-207). *)
Definition drawCell (windowsWidth windowsHeight : Z)
    (rowIndex cellIndex : nat) (cell : Cell) : list Draw :=
  if (Z.of_nat cellIndex * CELL_SIZE >? windowsWidth)
     || (Z.of_nat rowIndex * CELL_SIZE >? windowsHeight)
  then []
  else if negb cell then []
  else [ beginPath;
         rect (Z.of_nat cellIndex * CELL_SIZE) (Z.of_nat rowIndex * CELL_SIZE)
              CELL_SIZE CELL_SIZE;
         fillStyle "RGBA(245, 245, 245, 1)";
         fill;
         stroke ].

(** The two nested [forEach] loops (lines 181-208). *)
Definition drawCells (windowsWidth windowsHeight : Z) (cells : Grid) : list Draw :=
  mjoin (imap (λ rowIndex row,
    mjoin (imap (λ cellIndex cell,
      drawCell windowsWidth windowsHeight rowIndex cellIndex cell) row)) cells).

(** Lines 210-222. *)
Definition drawHover (mouseOverCell : option (Z * Z)) : list Draw :=
  match mouseOverCell with
  | Some m =>
      [ beginPath;
        rect (m.2 * CELL_SIZE) (m.1 * CELL_SIZE) CELL_SIZE CELL_SIZE;
        fillStyle "rgba(255, 255, 255, 0.2)";
        fill;
        stroke ]
  | None => []
  end.

Definition drawGrid (canvasReady : bool) (windowsWidth windowsHeight : Z)
    (cells : Grid) (mouseOverCell : option (Z * Z)) : list Draw :=
  if negb canvasReady then []
  else clearRect 0 0 WIDTH HEIGHT
         :: drawCells windowsWidth windowsHeight cells ++ drawHover mouseOverCell.

(** ** Specification vocabulary *)

(** The cell at row [r], column [c], when the grid has one there. *)
Definition cellAt (g : Grid) (r c : nat) : option Cell :=
  match g !! r with
  | Some row => row !! c
  | None => None
  end.

(** A grid with [rows] rows of [cols] cells each. *)
Definition rectangular (rows cols : nat) (g : Grid) : Prop :=
  length g = rows ∧ Forall (λ row : list Cell, length row = cols) g.

(** The shape the widget works with: 108 rows of 192 cells. *)
Definition wellShaped (g : Grid) : Prop := rectangular 108 192 g.

Definition allDead (g : Grid) : Prop :=
  Forall (Forall (λ cell : Cell, cell = false)) g.

(** The eight adjacent positions on the torus: indices are taken modulo
    [rows] and [cols]. *)
Definition neighborOffsets : list (Z * Z) :=
  [(-1, -1); (-1, 0); (-1, 1); (0, -1); (0, 1); (1, -1); (1, 0); (1, 1)].

Definition torusNeighbors (rows cols r c : nat) : list (nat * nat) :=
  (λ d : Z * Z,
     (Z.to_nat ((Z.of_nat r + d.1) `mod` Z.of_nat rows),
      Z.to_nat ((Z.of_nat c + d.2) `mod` Z.of_nat cols))) <$> neighborOffsets.

Definition isLive (g : Grid) (p : nat * nat) : bool :=
  default false (cellAt g p.1 p.2).

Definition torusCount (rows cols : nat) (g : Grid) (r c : nat) : Z :=
  Z.of_nat (length (List.filter (isLive g) (torusNeighbors rows cols r c))).

(** The pattern as the specification gives it: the offsets that are alive. *)
Definition gliderLive : list (Z * Z) := [(0, 0); (0, 1); (0, 2); (1, 0); (2, 1)].

Definition patternCell (dr dc : Z) : bool := bool_decide ((dr, dc) ∈ gliderLive).

(** The anchor: the hovered cell, or (50, 50). *)
Definition anchorOf (hover : option (Z * Z)) : Z * Z := default (50, 50) hover.

Definition inFootprint (anchor : Z * Z) (r c : nat) : Prop :=
  anchor.1 ≤ Z.of_nat r < anchor.1 + 3 ∧ anchor.2 ≤ Z.of_nat c < anchor.2 + 3.

#[local] Instance inFootprint_dec anchor r c : Decision (inFootprint anchor r c).
Proof. unfold inFootprint. apply _. Defined.

(** The cells of the pattern when the anchor is (5, 5). *)
Definition gliderAt55 : list (nat * nat) :=
  [(5, 5); (5, 6); (5, 7); (6, 5); (7, 6)]%nat.

(** A position that [countNeighbors] may read: inside the grid, with a cell
    there. *)
Definition inRange (rows cols : nat) (g : Grid) (p : Z * Z) : Prop :=
  0 ≤ p.1 < Z.of_nat rows ∧ 0 ≤ p.2 < Z.of_nat cols ∧ is_Some (JS.get2 g p.1 p.2).

(** [inSpan a z]: the index [z] is one of [a], [a + 1]. *)
Definition inSpan (a z : Z) : bool := (a <=? z) && (z <=? a + 1).

(** The 2×2 block whose top-left cell is [(r0, c0)]. *)
Definition inBlock (r0 c0 r c : Z) : bool := inSpan r0 r && inSpan c0 c.

(** [running] is meant to be derived: the effect of lines 377-383 sets it
    to [systemRunning && userRunning]. *)
Definition runningDerived (s : State) : Prop :=
  running s = systemRunning s && userRunning s.

(** A run of random draws that puts a horizontal blinker at row 50. *)
Definition blinkerDraws (r c : nat) : Q :=
  if decide (r = 50 ∧ 50 ≤ c ≤ 52)%nat then (9 # 10)%Q else (1 # 10)%Q.

(** [systemRunning] follows the visibility reported by the observer. *)
Definition synced (s : State) : Prop := systemRunning s = inView s.

(** The keys [handleKeyDown] has a case for. *)
Definition shortcutKeys : list string :=
  [" "; "r"; "c"; "s"; "p"; "m"; "n"; "f"; "g"].

(** The events whose handler calls [setCells]. *)
Definition mayChangeGrid (e : Event) : Prop :=
  match e with
  | KeyDown key => key ∈ ["r"; "c"; "s"; "g"]
  | Click _ _ | Tick | StepButton | RandomButton | ClearButton | GliderButton => True
  | _ => False
  end.

(** The events whose handler calls [setUserRunning]. *)
Definition mayChangeUserRunning (e : Event) : Prop :=
  match e with
  | KeyDown key => key = " "
  | RunButton => True
  | _ => False
  end.

(** The events whose handler calls [setMouseOverCell]. *)
Definition mayChangeHover (e : Event) : Prop :=
  match e with
  | MouseMove _ _ | MouseOut => True
  | _ => False
  end.

(** [wrapHit n l z]: the index [z], wrapped modulo [n], is [l]. *)
Definition wrapHit (n l z : Z) : bool := z `mod` n =? l.

(** The cell at row [r], column [c] passes the viewport test of
    lines 187-192. *)
Definition inViewport (windowsWidth windowsHeight : Z) (r c : nat) : Prop :=
  Z.of_nat c * 10 ≤ windowsWidth ∧ Z.of_nat r * 10 ≤ windowsHeight.

(** The five context calls that paint one square. *)
Definition square (x y : Z) (color : string) : list Draw :=
  [beginPath; rect x y 10 10; fillStyle color; fill; stroke].

(** Scrolling the torus: the row (column) that was at index [k + i],
    wrapped, comes to index [i]. *)
Definition scrollRows (k : nat) (g : Grid) : Grid := rotate k g.
Definition scrollCols (k : nat) (g : Grid) : Grid := rotate k <$> g.

(** ** Basic facts about lookups and shapes *)

Lemma get_of_nat {A} (l : list A) (n : nat) : JS.get l (Z.of_nat n) = l !! n.
Proof.
  unfold JS.get. destruct (Z.leb_spec 0 (Z.of_nat n)); [|lia].
  by rewrite Nat2Z.id.
Qed.

Lemma get_neg {A} (l : list A) (i : Z) : i < 0 → JS.get l i = None.
Proof. intros Hi. unfold JS.get. destruct (Z.leb_spec 0 i); [lia|done]. Qed.

Lemma get2_of_nat (g : Grid) (r c : nat) :
  JS.get2 g (Z.of_nat r) (Z.of_nat c) = cellAt g r c.
Proof.
  unfold JS.get2, cellAt. rewrite get_of_nat.
  destruct (g !! r); [apply get_of_nat|done].
Qed.

Lemma rectangular_row rows cols (g : Grid) r row :
  rectangular rows cols g → g !! r = Some row → length row = cols.
Proof. intros [_ Hall] Hr. exact (proj1 (Forall_lookup _ _) Hall r row Hr). Qed.

Lemma rectangular_cellAt rows cols (g : Grid) r c :
  rectangular rows cols g →
  is_Some (cellAt g r c) ↔ (r < rows)%nat ∧ (c < cols)%nat.
Proof.
  intros Hrect. unfold cellAt. split.
  - intros [cell Hcell]. destruct (g !! r) as [row|] eqn:Hr; [|done].
    split.
    + destruct Hrect as [<- _]. by eapply lookup_lt_Some.
    + erewrite <- (rectangular_row _ _ _ _ _ Hrect Hr). by eapply lookup_lt_Some.
  - intros [Hlr Hlc]. destruct Hrect as [Hlen Hall].
    destruct (lookup_lt_is_Some_2 g r) as [row Hr]; [lia|].
    rewrite Hr. apply lookup_lt_is_Some_2.
    rewrite (proj1 (Forall_lookup _ _) Hall r row Hr). done.
Qed.

Lemma numRowsOf_rect rows cols (g : Grid) :
  rectangular rows cols g → numRowsOf g = Z.of_nat rows.
Proof. intros [Hlen _]. unfold numRowsOf. by rewrite Hlen. Qed.

Lemma numColsOf_rect rows cols (g : Grid) :
  (0 < rows)%nat → rectangular rows cols g → numColsOf g = Z.of_nat cols.
Proof.
  intros Hpos Hrect. unfold numColsOf.
  destruct (lookup_lt_is_Some_2 g 0%nat) as [row0 H0].
  { destruct Hrect as [-> _]. done. }
  rewrite H0. by rewrite (rectangular_row _ _ _ _ _ Hrect H0).
Qed.

Lemma cellAt_imap2 {B} (f : nat → nat → bool → B) (g : Grid) r c :
  match imap (λ i row, imap (f i) row) g !! r with
  | Some row => row !! c
  | None => None
  end = f r c <$> cellAt g r c.
Proof.
  unfold cellAt. rewrite list_lookup_imap.
  destruct (g !! r) as [row|]; simpl; [|done].
  by rewrite list_lookup_imap.
Qed.

Lemma rectangular_imap2 rows cols (f : nat → nat → bool → bool) (g : Grid) :
  rectangular rows cols g →
  rectangular rows cols (imap (λ i row, imap (f i) row) g).
Proof.
  intros [Hlen Hall]. split; [by rewrite length_imap|].
  apply Forall_lookup. intros i row' Hi.
  rewrite list_lookup_imap in Hi.
  destruct (g !! i) as [row|] eqn:Hrow; simplify_eq/=.
  rewrite length_imap. exact (proj1 (Forall_lookup _ _) Hall i row Hrow).
Qed.

(** Two grids with the same cells and the same row lengths are equal. *)
Lemma grid_ext (g1 g2 : Grid) :
  length g1 = length g2 →
  (∀ r row1 row2, g1 !! r = Some row1 → g2 !! r = Some row2 →
     length row1 = length row2) →
  (∀ r c, cellAt g1 r c = cellAt g2 r c) →
  g1 = g2.
Proof.
  intros Hlen Hrows Hcells.
  apply list_eq_same_length with (length g1); [by symmetry|done|].
  intros r row1 row2 _ H1 H2.
  apply list_eq_same_length with (length row1); [symmetry; eauto|done|].
  intros c x y _ Hx Hy. specialize (Hcells r c). unfold cellAt in Hcells.
  rewrite H1, H2 in Hcells. congruence.
Qed.

(** ** The neighbour count on rectangular grids *)

Lemma rem_wrap (a m : Z) :
  0 < m → 0 ≤ a + m → JS.rem (a + m) m = Some (a `mod` m).
Proof.
  intros Hm Ha. unfold JS.rem.
  destruct (Z.eqb_spec m 0); [lia|].
  rewrite Z.rem_mod_nonneg by lia.
  replace (a + m) with (a + 1 * m) by lia.
  by rewrite Z_mod_plus_full.
Qed.

Section Rectangular.

Variables (rows cols : nat) (g : Grid).
Hypothesis Hrows : (0 < rows)%nat.
Hypothesis Hcols : (0 < cols)%nat.
Hypothesis Hrect : rectangular rows cols g.

Lemma neighborIndex_rect (r c : nat) (i j : Z) :
  (r < rows)%nat → (c < cols)%nat → -1 ≤ i ≤ 1 → -1 ≤ j ≤ 1 →
  neighborIndex g (Z.of_nat r) (Z.of_nat c) i j =
    Some ((Z.of_nat r + i) `mod` Z.of_nat rows,
          (Z.of_nat c + j) `mod` Z.of_nat cols).
Proof using Hrows Hcols Hrect.
  intros Hr Hc Hi Hj. unfold neighborIndex.
  rewrite (numRowsOf_rect _ _ _ Hrect), (numColsOf_rect _ _ _ Hrows Hrect).
  rewrite !rem_wrap by lia.
  pose proof (Z.mod_pos_bound (Z.of_nat r + i) (Z.of_nat rows)).
  pose proof (Z.mod_pos_bound (Z.of_nat c + j) (Z.of_nat cols)).
  destruct (Z.leb_spec 0 ((Z.of_nat r + i) `mod` Z.of_nat rows)); [|lia].
  destruct (Z.ltb_spec ((Z.of_nat r + i) `mod` Z.of_nat rows) (Z.of_nat rows)); [|lia].
  destruct (Z.leb_spec 0 ((Z.of_nat c + j) `mod` Z.of_nat cols)); [|lia].
  destruct (Z.ltb_spec ((Z.of_nat c + j) `mod` Z.of_nat cols) (Z.of_nat cols)); [|lia].
  done.
Qed.

Lemma neighborAlive_rect (r c : nat) (i j : Z) :
  (r < rows)%nat → (c < cols)%nat → -1 ≤ i ≤ 1 → -1 ≤ j ≤ 1 →
  neighborAlive g (Z.of_nat r) (Z.of_nat c) i j =
    isLive g (Z.to_nat ((Z.of_nat r + i) `mod` Z.of_nat rows),
              Z.to_nat ((Z.of_nat c + j) `mod` Z.of_nat cols)).
Proof using Hrows Hcols Hrect.
  intros Hr Hc Hi Hj. unfold neighborAlive.
  rewrite neighborIndex_rect by done.
  pose proof (Z.mod_pos_bound (Z.of_nat r + i) (Z.of_nat rows)).
  pose proof (Z.mod_pos_bound (Z.of_nat c + j) (Z.of_nat cols)).
  rewrite <- (Z2Nat.id ((Z.of_nat r + i) `mod` Z.of_nat rows)) at 1 by lia.
  rewrite <- (Z2Nat.id ((Z.of_nat c + j) `mod` Z.of_nat cols)) at 1 by lia.
  by rewrite get2_of_nat.
Qed.

(** The loop of [countNeighbors] computes the toroidal count. *)
Lemma countNeighbors_torus (r c : nat) :
  (r < rows)%nat → (c < cols)%nat →
  countNeighbors g (Z.of_nat r) (Z.of_nat c) = torusCount rows cols g r c.
Proof using Hrows Hcols Hrect.
  intros Hr Hc. unfold countNeighbors, torusCount, torusNeighbors, offsets.
  cbn [foldl fmap list_fmap neighborOffsets Z.eqb andb fst snd List.filter].
  rewrite !neighborAlive_rect by (done || lia).
  cbn [fst snd].
  repeat match goal with
         | |- context [isLive g ?p] => generalize (isLive g p); intros []
         end; reflexivity.
Qed.

End Rectangular.

(** ** The transition function *)

Lemma cellAt_updateGrid (g : Grid) (r c : nat) :
  cellAt (updateGrid g) r c =
    (λ cell, nextCell cell (countNeighbors g (Z.of_nat r) (Z.of_nat c)))
      <$> cellAt g r c.
Proof.
  unfold updateGrid.
  exact (cellAt_imap2
           (λ r c cell, nextCell cell (countNeighbors g (Z.of_nat r) (Z.of_nat c)))
           g r c).
Qed.

Lemma updateGrid_rectangular rows cols (g : Grid) :
  rectangular rows cols g → rectangular rows cols (updateGrid g).
Proof.
  exact (rectangular_imap2 rows cols
           (λ r c cell, nextCell cell (countNeighbors g (Z.of_nat r) (Z.of_nat c)))
           g).
Qed.

Lemma nextCell_live (n : Z) : nextCell true n = true ↔ n = 2 ∨ n = 3.
Proof.
  unfold nextCell. rewrite orb_true_iff, !Z.eqb_eq. done.
Qed.

Lemma nextCell_dead (n : Z) : nextCell false n = true ↔ n = 3.
Proof. unfold nextCell. apply Z.eqb_eq. Qed.

Example blinker_flips :
  updateGrid [ [false; false; false; false; false];
               [false; false; true;  false; false];
               [false; false; true;  false; false];
               [false; false; true;  false; false];
               [false; false; false; false; false] ]
  = [ [false; false; false; false; false];
      [false; false; false; false; false];
      [false; true;  true;  true;  false];
      [false; false; false; false; false];
      [false; false; false; false; false] ].
Proof. reflexivity. Qed.

Example corner_wraps :
  countNeighbors [ [true;  false; false];
                   [false; false; false];
                   [false; false; true] ] 0 0 = 1.
Proof. reflexivity. Qed.

(** C1. On every non-empty rectangular grid the transition keeps the shape
    and follows Conway's rule over the toroidal neighbourhood: a live cell
    is live afterwards iff it has 2 or 3 live neighbours, a dead cell iff it
    has exactly 3, the neighbours being the 8 positions with indices taken
    modulo [rows] and [cols].  In particular the cell at (0,0) has the cell
    at (rows-1, cols-1) among its neighbours and counts it when it is
    live. *)
Theorem updateGrid_conway_torus (rows cols : nat) (g : Grid) :
  (0 < rows)%nat →
  rectangular rows cols g →
  rectangular rows cols (updateGrid g)
  ∧ (∀ r c cell,
       cellAt g r c = Some cell →
       countNeighbors g (Z.of_nat r) (Z.of_nat c) = torusCount rows cols g r c
       ∧ ∃ cell',
           cellAt (updateGrid g) r c = Some cell'
           ∧ (cell = true →
                (cell' = true ↔ torusCount rows cols g r c = 2
                                 ∨ torusCount rows cols g r c = 3))
           ∧ (cell = false →
                (cell' = true ↔ torusCount rows cols g r c = 3)))
  ∧ (cellAt g (rows - 1) (cols - 1) = Some true →
       ((rows - 1)%nat, (cols - 1)%nat) ∈ torusNeighbors rows cols 0 0
       ∧ neighborIndex g 0 0 (-1) (-1)
           = Some (Z.of_nat rows - 1, Z.of_nat cols - 1)
       ∧ neighborAlive g 0 0 (-1) (-1) = true
       ∧ 1 ≤ countNeighbors g 0 0).
Proof.
  intros Hrows Hrect. split; [by apply updateGrid_rectangular|]. split.
  - intros r c cell Hcell.
    destruct (proj1 (rectangular_cellAt _ _ _ r c Hrect)) as [Hr Hc]; [by eexists|].
    assert (Hn : countNeighbors g (Z.of_nat r) (Z.of_nat c) = torusCount rows cols g r c)
      by (apply countNeighbors_torus; (done || lia)).
    split; [done|].
    eexists. rewrite cellAt_updateGrid, Hcell, Hn. split; [reflexivity|].
    split; intros ->; [apply nextCell_live|apply nextCell_dead].
  - intros Hcorner.
    destruct (proj1 (rectangular_cellAt _ _ _ (rows - 1) (cols - 1) Hrect))
      as [Hr Hc]; [by eexists|].
    assert (Hcols : (0 < cols)%nat) by lia.
    assert (Hmr : (Z.of_nat 0 + -1) `mod` Z.of_nat rows = Z.of_nat rows - 1).
    { symmetry. apply (Z.mod_unique_pos _ _ (-1)); lia. }
    assert (Hmc : (Z.of_nat 0 + -1) `mod` Z.of_nat cols = Z.of_nat cols - 1).
    { symmetry. apply (Z.mod_unique_pos _ _ (-1)); lia. }
    assert (Hidx : neighborIndex g 0 0 (-1) (-1)
                   = Some (Z.of_nat rows - 1, Z.of_nat cols - 1)).
    { change 0 with (Z.of_nat 0).
      rewrite (neighborIndex_rect rows cols g Hrows Hcols Hrect) by lia.
      by rewrite Hmr, Hmc. }
    assert (Halive : neighborAlive g 0 0 (-1) (-1) = true).
    { unfold neighborAlive. rewrite Hidx.
      replace (Z.of_nat rows - 1) with (Z.of_nat (rows - 1)) by lia.
      replace (Z.of_nat cols - 1) with (Z.of_nat (cols - 1)) by lia.
      by rewrite get2_of_nat, Hcorner. }
    split; [|split; [done|split; [done|]]].
    + unfold torusNeighbors, neighborOffsets. cbn [fmap list_fmap fst snd].
      rewrite Hmr, Hmc.
      replace (Z.to_nat (Z.of_nat rows - 1)) with (rows - 1)%nat by lia.
      replace (Z.to_nat (Z.of_nat cols - 1)) with (cols - 1)%nat by lia.
      apply list_elem_of_here.
    + unfold countNeighbors, offsets. cbn [foldl Z.eqb andb].
      rewrite Halive.
      repeat match goal with
             | |- context [neighborAlive g ?a ?b ?i ?j] =>
                 generalize (neighborAlive g a b i j); intros []
             end; lia.
Qed.

Lemma updateGrid_conway_torus_witness :
  let g := [ [true;  false; false];
             [false; false; false];
             [false; false; true] ] in
  cellAt (updateGrid g) 0 0 = Some false ∧ 1 ≤ countNeighbors g 0 0.
Proof.
  intros g.
  destruct (updateGrid_conway_torus 3 3 g) as (_ & Hcell & Hcorner).
  - lia.
  - split; [reflexivity|]. repeat constructor.
  - split; [reflexivity|]. apply Hcorner. reflexivity.
Defined.

(** ** Glider insertion *)

Lemma glider_get2 (dr dc : Z) :
  0 ≤ dr < 3 → 0 ≤ dc < 3 → JS.get2 glider dr dc = Some (patternCell dr dc).
Proof.
  intros Hr Hc.
  assert (dr = 0 ∨ dr = 1 ∨ dr = 2) as [-> | [-> | ->]] by lia;
    (assert (dc = 0 ∨ dc = 1 ∨ dc = 2) as [-> | [-> | ->]] by lia);
    reflexivity.
Qed.

Lemma addGliderRaw_cell (g : Grid) (hover : option (Z * Z)) (r c : nat) :
  match addGliderRaw g hover !! r with
  | Some row => row !! c
  | None => None
  end
  = (λ cell, Some (if decide (inFootprint (anchorOf hover) r c)
                   then patternCell (Z.of_nat r - (anchorOf hover).1)
                                    (Z.of_nat c - (anchorOf hover).2)
                   else cell)) <$> cellAt g r c.
Proof.
  unfold addGliderRaw, cellAt. rewrite list_lookup_imap.
  destruct (g !! r) as [row|]; simpl; [|done].
  rewrite list_lookup_imap. destruct (row !! c) as [cell|]; simpl; [|done].
  f_equal.
  assert (Hanchor : ∀ k : Z * Z,
            match hover with Some m => m.1 | None => 50 end = (anchorOf hover).1
            ∧ match hover with Some m => m.2 | None => 50 end = (anchorOf hover).2)
    by (by destruct hover).
  destruct (Hanchor (0, 0)) as [-> ->].
  change (Z.of_nat (length glider)) with 3. change (Z.of_nat 3) with 3.
  change gliderWidth with 3.
  destruct (decide (inFootprint (anchorOf hover) r c)) as [Hin | Hout];
    unfold inFootprint in *.
  - destruct (Z.leb_spec (anchorOf hover).1 (Z.of_nat r)); [|lia].
    destruct (Z.ltb_spec (Z.of_nat r) ((anchorOf hover).1 + 3)); [|lia].
    destruct (Z.leb_spec (anchorOf hover).2 (Z.of_nat c)); [|lia].
    destruct (Z.ltb_spec (Z.of_nat c) ((anchorOf hover).2 + 3)); [|lia].
    simpl. apply glider_get2; lia.
  - destruct (Z.leb_spec (anchorOf hover).1 (Z.of_nat r)); [|done].
    destruct (Z.ltb_spec (Z.of_nat r) ((anchorOf hover).1 + 3)); [|done].
    destruct (Z.leb_spec (anchorOf hover).2 (Z.of_nat c)); [|done].
    destruct (Z.ltb_spec (Z.of_nat c) ((anchorOf hover).2 + 3)); [lia|done].
Qed.

(** The cast of line 167 is sound: no cell of [newGrid] is [undefined]. *)
Lemma addGliderRaw_defined (g : Grid) (hover : option (Z * Z)) :
  addGliderRaw g hover = (λ row : list Cell, Some <$> row) <$> addGlider g hover.
Proof.
  apply list_eq. intros r. unfold addGlider.
  rewrite !list_lookup_fmap.
  destruct (addGliderRaw g hover !! r) as [row|] eqn:Hrow; simpl; [|done].
  f_equal. apply list_eq. intros c. rewrite !list_lookup_fmap.
  pose proof (addGliderRaw_cell g hover r c) as Hcell. rewrite Hrow in Hcell.
  rewrite Hcell. by destruct (cellAt g r c).
Qed.

Lemma cellAt_addGlider (g : Grid) (hover : option (Z * Z)) (r c : nat) :
  cellAt (addGlider g hover) r c
  = (λ cell, if decide (inFootprint (anchorOf hover) r c)
             then patternCell (Z.of_nat r - (anchorOf hover).1)
                              (Z.of_nat c - (anchorOf hover).2)
             else cell) <$> cellAt g r c.
Proof.
  pose proof (addGliderRaw_cell g hover r c) as Hcell.
  unfold cellAt at 1. unfold addGlider. rewrite list_lookup_fmap.
  destruct (addGliderRaw g hover !! r) as [row|]; simpl.
  - rewrite list_lookup_fmap, Hcell. by destruct (cellAt g r c).
  - by destruct (cellAt g r c).
Qed.

Lemma addGlider_length (g : Grid) hover : length (addGlider g hover) = length g.
Proof. unfold addGlider, addGliderRaw. by rewrite length_fmap, length_imap. Qed.

Lemma addGlider_row_length (g : Grid) hover r row' row :
  addGlider g hover !! r = Some row' → g !! r = Some row →
  length row' = length row.
Proof.
  unfold addGlider, addGliderRaw. rewrite list_lookup_fmap, list_lookup_imap.
  intros H1 H2. rewrite H2 in H1. simplify_eq/=.
  by rewrite length_fmap, length_imap.
Qed.

Lemma addGlider_rectangular rows cols (g : Grid) hover :
  rectangular rows cols g → rectangular rows cols (addGlider g hover).
Proof.
  intros [Hlen Hall]. split; [by rewrite addGlider_length|].
  apply Forall_lookup. intros r row' Hr'.
  destruct (lookup_lt_is_Some_2 g r) as [row Hr].
  { rewrite <- (addGlider_length g hover). by eapply lookup_lt_Some. }
  rewrite (addGlider_row_length _ _ _ _ _ Hr' Hr).
  exact (proj1 (Forall_lookup _ _) Hall r row Hr).
Qed.

Lemma allDead_cellAt (g : Grid) r c cell :
  allDead g → cellAt g r c = Some cell → cell = false.
Proof.
  unfold allDead, cellAt. intros Hall Hcell.
  destruct (g !! r) as [row|] eqn:Hr; [|done].
  pose proof (proj1 (Forall_lookup _ _) Hall r row Hr) as Hrow.
  exact (proj1 (Forall_lookup _ _) Hrow c cell Hcell).
Qed.

Lemma glider_at_5_5 (r c : nat) :
  inFootprint (5, 5) r c ∧ patternCell (Z.of_nat r - 5) (Z.of_nat c - 5) = true
  ↔ (r, c) ∈ gliderAt55.
Proof.
  unfold gliderAt55. rewrite !elem_of_cons, elem_of_nil. split.
  - intros [[Hr Hc] Hpat]. simpl in Hr, Hc.
    assert (r = 5 ∨ r = 6 ∨ r = 7)%nat as [-> | [-> | ->]] by lia;
      (assert (c = 5 ∨ c = 6 ∨ c = 7)%nat as [-> | [-> | ->]] by lia);
      vm_compute in Hpat; try discriminate Hpat; tauto.
  - intros H.
    repeat (destruct H as [H | H];
            [simplify_eq; split; [unfold inFootprint; simpl; lia | reflexivity]|]).
    destruct H.
Qed.

Lemma Array_from_lookup {A} (n : nat) (f : nat → A) (i : nat) :
  (i < n)%nat → JS.Array_from n f !! i = Some (f i).
Proof.
  intros Hi. unfold JS.Array_from. rewrite list_lookup_fmap.
  by rewrite lookup_seq_lt.
Qed.

Lemma Array_from_length {A} (n : nat) (f : nat → A) :
  length (JS.Array_from n f) = n.
Proof. unfold JS.Array_from. by rewrite length_fmap, length_seq. Qed.

Lemma Array_from_Forall {A} (P : A → Prop) (n : nat) (f : nat → A) :
  (∀ i, (i < n)%nat → P (f i)) → Forall P (JS.Array_from n f).
Proof.
  intros Hf. unfold JS.Array_from. apply Forall_fmap, Forall_forall.
  intros i Hi. apply elem_of_seq in Hi. apply Hf. lia.
Qed.

Lemma clearGrid_allDead : allDead clearGrid.
Proof.
  unfold allDead, clearGrid.
  apply Array_from_Forall. intros _ _. by apply Array_from_Forall.
Qed.

Lemma clearGrid_wellShaped : wellShaped clearGrid.
Proof.
  split; [apply Array_from_length|].
  apply Array_from_Forall. intros _ _. apply Array_from_length.
Qed.

Lemma randomGrid_wellShaped draws : wellShaped (randomGrid draws).
Proof.
  split; [apply Array_from_length|].
  apply Array_from_Forall. intros r _. apply Array_from_length.
Qed.

Example glider_on_small_grid :
  addGlider [ [true; true; true; true];
              [true; true; true; true];
              [true; true; true; true];
              [true; true; true; true] ] (Some (1, 1))
  = [ [true; true;  true;  true];
      [true; true;  true;  true];
      [true; true;  false; false];
      [true; false; true;  false] ].
Proof. reflexivity. Qed.

(** C3. Glider insertion overwrites the 3×3 footprint anchored at the
    hovered cell, or at (50, 50) when no cell is hovered: a cell of the grid
    inside the footprint becomes live iff its offset is one of (0,0), (0,1),
    (0,2), (1,0), (2,1), whatever it was before; every cell outside the
    footprint keeps its value and no cell is created.  On an all-dead grid
    with anchor (5, 5) the live cells afterwards are exactly the five
    pattern cells, and so on the cleared grid. *)
Theorem addGlider_overlay (g : Grid) (hover : option (Z * Z)) :
  anchorOf hover = match hover with Some p => p | None => (50, 50) end
  ∧ (∀ r c cell,
       cellAt g r c = Some cell →
       inFootprint (anchorOf hover) r c →
       ∃ cell',
         cellAt (addGlider g hover) r c = Some cell'
         ∧ (cell' = true ↔
              (Z.of_nat r - (anchorOf hover).1, Z.of_nat c - (anchorOf hover).2)
                ∈ gliderLive))
  ∧ (∀ r c,
       ¬ inFootprint (anchorOf hover) r c →
       cellAt (addGlider g hover) r c = cellAt g r c)
  ∧ (∀ r c, cellAt g r c = None → cellAt (addGlider g hover) r c = None)
  ∧ (allDead g →
     ∀ r c,
       cellAt (addGlider g (Some (5, 5))) r c = Some true
       ↔ is_Some (cellAt g r c) ∧ (r, c) ∈ gliderAt55)
  ∧ (∀ r c,
       cellAt (addGlider clearGrid (Some (5, 5))) r c = Some true
       ↔ (r, c) ∈ gliderAt55).
Proof.
  assert (Hdead : ∀ g' : Grid, allDead g' → ∀ r c,
            cellAt (addGlider g' (Some (5, 5))) r c = Some true
            ↔ is_Some (cellAt g' r c) ∧ (r, c) ∈ gliderAt55).
  { intros g' Hall r c. rewrite cellAt_addGlider, <- glider_at_5_5.
    change (anchorOf (Some (5, 5))) with (5, 5). cbn [fst snd].
    destruct (cellAt g' r c) as [cell|] eqn:Hcell; simpl.
    - rewrite (allDead_cellAt _ _ _ _ Hall Hcell).
      destruct (decide (inFootprint (5, 5) r c)) as [Hin | Hout].
      + split; [intros [= ->]; eauto|]. by intros (_ & _ & ->).
      + split; [done|]. by intros (_ & ? & _).
    - split; [done|]. by intros [[? ?] _]. }
  split; [by destruct hover|]. split; [|split; [|split; [|split]]].
  - intros r c cell Hcell Hin. eexists.
    rewrite cellAt_addGlider, Hcell. simpl.
    rewrite decide_True by done. split; [reflexivity|].
    unfold patternCell. by rewrite bool_decide_eq_true.
  - intros r c Hout. rewrite cellAt_addGlider.
    destruct (cellAt g r c); simpl; [|done]. by rewrite decide_False.
  - intros r c Hnone. by rewrite cellAt_addGlider, Hnone.
  - apply Hdead.
  - intros r c. rewrite (Hdead clearGrid clearGrid_allDead). split; [by intros [_ ?]|].
    intros Hin. split; [|done].
    apply (rectangular_cellAt 108 192); [apply clearGrid_wellShaped|].
    unfold gliderAt55 in Hin. rewrite !elem_of_cons, elem_of_nil in Hin.
    repeat (destruct Hin as [Hin | Hin]; [simplify_eq; lia|]).
    destruct Hin.
Qed.

Lemma addGlider_overlay_witness :
  cellAt (addGlider clearGrid (Some (5, 5))) 6 5 = Some true
  ∧ cellAt (addGlider clearGrid (Some (5, 5))) 6 6 ≠ Some true.
Proof.
  destruct (addGlider_overlay clearGrid None) as (_ & _ & _ & _ & _ & Hclear).
  split.
  - apply Hclear. unfold gliderAt55. rewrite !elem_of_cons. tauto.
  - intros Hlive. apply Hclear in Hlive.
    unfold gliderAt55 in Hlive. rewrite !elem_of_cons, elem_of_nil in Hlive.
    repeat (destruct Hlive as [Hlive | Hlive]; [discriminate Hlive|]).
    destruct Hlive.
Defined.

(** C10. Glider insertion does not wrap.  Only the cells of the 3×3
    footprint that lie in the grid are overwritten, with the pattern: every
    cell outside the footprint keeps its value (those above the anchor row
    or left of the anchor column as well as those below or right of the
    footprint), no cell is created and the shape is kept, also when the
    footprint sticks out over the bottom or right edge.  In particular the
    positions the overhanging part would have on the torus, near the
    opposite edge, keep their value.  When the anchor row is at least
    [rows] or the anchor column at least [cols] the grid is returned as it
    was. *)
Theorem addGlider_no_wrap (rows cols : nat) (g : Grid) (hover : option (Z * Z)) :
  rectangular rows cols g →
  (∀ r c,
     ¬ inFootprint (anchorOf hover) r c →
     cellAt (addGlider g hover) r c = cellAt g r c)
  ∧ (∀ r c,
       Z.of_nat r < (anchorOf hover).1 ∨ Z.of_nat c < (anchorOf hover).2
       ∨ (anchorOf hover).1 + 3 ≤ Z.of_nat r ∨ (anchorOf hover).2 + 3 ≤ Z.of_nat c →
       cellAt (addGlider g hover) r c = cellAt g r c)
  ∧ (∀ r c,
       (r < rows)%nat → (c < cols)%nat →
       inFootprint (anchorOf hover) r c →
       cellAt (addGlider g hover) r c
       = Some (patternCell (Z.of_nat r - (anchorOf hover).1)
                           (Z.of_nat c - (anchorOf hover).2)))
  ∧ rectangular rows cols (addGlider g hover)
  ∧ (∀ r c, cellAt g r c = None → cellAt (addGlider g hover) r c = None)
  ∧ (∀ dr dc,
       (3 ≤ rows)%nat → (3 ≤ cols)%nat →
       0 ≤ (anchorOf hover).1 < Z.of_nat rows →
       0 ≤ (anchorOf hover).2 < Z.of_nat cols →
       0 ≤ dr < 3 → 0 ≤ dc < 3 →
       Z.of_nat rows ≤ (anchorOf hover).1 + dr
       ∨ Z.of_nat cols ≤ (anchorOf hover).2 + dc →
       cellAt (addGlider g hover)
              (Z.to_nat (((anchorOf hover).1 + dr) `mod` Z.of_nat rows))
              (Z.to_nat (((anchorOf hover).2 + dc) `mod` Z.of_nat cols))
       = cellAt g
           (Z.to_nat (((anchorOf hover).1 + dr) `mod` Z.of_nat rows))
           (Z.to_nat (((anchorOf hover).2 + dc) `mod` Z.of_nat cols)))
  ∧ (Z.of_nat rows ≤ (anchorOf hover).1 ∨ Z.of_nat cols ≤ (anchorOf hover).2 →
     addGlider g hover = g).
Proof.
  intros Hrect.
  assert (Hframe : ∀ r c, ¬ inFootprint (anchorOf hover) r c →
            cellAt (addGlider g hover) r c = cellAt g r c).
  { intros r c Hout. rewrite cellAt_addGlider.
    destruct (cellAt g r c); simpl; [|done]. by rewrite decide_False. }
  split; [exact Hframe|]. split; [|split; [|split; [|split; [|split]]]].
  - intros r c Hbeside. apply Hframe. unfold inFootprint. lia.
  - intros r c Hr Hc Hin. rewrite cellAt_addGlider.
    destruct (proj2 (rectangular_cellAt _ _ _ r c Hrect)) as [cell ->]; [done|].
    simpl. by rewrite decide_True.
  - by apply addGlider_rectangular.
  - intros r c Hnone. by rewrite cellAt_addGlider, Hnone.
  - intros dr dc Hrows Hcols Har Hac Hdr Hdc Hover. apply Hframe.
    unfold inFootprint.
    pose proof (Z.mod_pos_bound ((anchorOf hover).1 + dr) (Z.of_nat rows)).
    pose proof (Z.mod_pos_bound ((anchorOf hover).2 + dc) (Z.of_nat cols)).
    rewrite !Z2Nat.id by lia.
    destruct Hover as [Hover | Hover].
    + assert (((anchorOf hover).1 + dr) `mod` Z.of_nat rows
              = (anchorOf hover).1 + dr - Z.of_nat rows) as ->
        by (symmetry; apply (Z.mod_unique_pos _ _ 1); lia).
      lia.
    + assert (((anchorOf hover).2 + dc) `mod` Z.of_nat cols
              = (anchorOf hover).2 + dc - Z.of_nat cols) as ->
        by (symmetry; apply (Z.mod_unique_pos _ _ 1); lia).
      lia.
  - intros Hfar. apply grid_ext.
    + apply addGlider_length.
    + intros r row' row. apply addGlider_row_length.
    + intros r c. rewrite cellAt_addGlider.
      destruct (cellAt g r c) as [cell|] eqn:Hcell; simpl; [|done].
      destruct (proj1 (rectangular_cellAt _ _ _ r c Hrect)) as [Hr Hc]; [by eexists|].
      rewrite decide_False; [done|]. unfold inFootprint. lia.
Qed.

Lemma addGlider_no_wrap_witness :
  let g := [ [true; true; true; true; true];
             [true; true; true; true; true];
             [true; true; true; true; true];
             [true; true; true; true; true];
             [true; true; true; true; true] ] in
  addGlider g (Some (3, 3))
  = [ [true; true; true; true; true];
      [true; true; true; true; true];
      [true; true; true; true; true];
      [true; true; true; true; true];
      [true; true; true; true; false] ]
  ∧ cellAt (addGlider g (Some (3, 3))) 0 0 = Some true
  ∧ cellAt (addGlider g (Some (0, 0))) 1 3 = Some true
  ∧ cellAt (addGlider g (Some (0, 0))) 3 1 = Some true
  ∧ cellAt (addGlider g (Some (3, 3))) 4 4 = Some false
  ∧ addGlider g (Some (5, 0)) = g.
Proof.
  intros g.
  assert (Hrect : rectangular 5 5 g) by (split; [reflexivity|repeat constructor]).
  destruct (addGlider_no_wrap 5 5 g (Some (3, 3)) Hrect)
    as (_ & _ & Hin & _ & _ & Hwrap & _).
  destruct (addGlider_no_wrap 5 5 g (Some (0, 0)) Hrect) as (Hframe & _).
  destruct (addGlider_no_wrap 5 5 g (Some (5, 0)) Hrect)
    as (_ & _ & _ & _ & _ & _ & Hfar).
  split; [reflexivity|]. split; [|split; [|split; [|split]]].
  - apply (Hwrap 2 2); simpl; lia.
  - rewrite Hframe; [reflexivity|]. unfold inFootprint. simpl. lia.
  - rewrite Hframe; [reflexivity|]. unfold inFootprint. simpl. lia.
  - rewrite Hin; [reflexivity|lia|lia|]. unfold inFootprint. simpl. lia.
  - apply Hfar. simpl. lia.
Defined.

(** ** Toggling a cell *)

Lemma cellAt_toggleCell (g : Grid) (x y : Z) (r c : nat) :
  cellAt (toggleCell g x y) r c
  = (λ cell, if decide (Z.of_nat r = y `div` 10 ∧ Z.of_nat c = x `div` 10)
             then negb cell else cell) <$> cellAt g r c.
Proof.
  unfold toggleCell, cellAt, cellOfPixel, CELL_SIZE. cbn [fst snd].
  rewrite list_lookup_imap.
  destruct (g !! r) as [row|]; simpl; [|done].
  destruct (Z.eqb_spec (Z.of_nat r) (y `div` 10)) as [Hr | Hr].
  - rewrite list_lookup_imap. destruct (row !! c) as [cell|]; simpl; [|done].
    destruct (Z.eqb_spec (Z.of_nat c) (x `div` 10)) as [Hc | Hc].
    + by rewrite decide_True.
    + rewrite decide_False; [done|tauto].
  - destruct (row !! c) as [cell|]; simpl; [|done].
    rewrite decide_False; [done|tauto].
Qed.

Lemma toggleCell_length (g : Grid) x y : length (toggleCell g x y) = length g.
Proof. unfold toggleCell. by rewrite length_imap. Qed.

Lemma toggleCell_row_length (g : Grid) x y r row' row :
  toggleCell g x y !! r = Some row' → g !! r = Some row →
  length row' = length row.
Proof.
  unfold toggleCell. rewrite list_lookup_imap. intros H1 H2.
  rewrite H2 in H1. simplify_eq/=.
  destruct (_ =? _); rewrite ?length_imap; done.
Qed.

Lemma toggleCell_rectangular rows cols (g : Grid) x y :
  rectangular rows cols g → rectangular rows cols (toggleCell g x y).
Proof.
  intros [Hlen Hall]. split; [by rewrite toggleCell_length|].
  apply Forall_lookup. intros r row' Hr'.
  destruct (lookup_lt_is_Some_2 g r) as [row Hr].
  { rewrite <- (toggleCell_length g x y). by eapply lookup_lt_Some. }
  rewrite (toggleCell_row_length _ _ _ _ _ _ Hr' Hr).
  exact (proj1 (Forall_lookup _ _) Hall r row Hr).
Qed.

Example toggle_small :
  toggleCell [ [false; false; false]; [false; false; false] ] 25 13
  = [ [false; false; false]; [false; false; true] ].
Proof. reflexivity. Qed.

(** C4. A click at the pixel (x, y) lands on the cell (⌊y/10⌋, ⌊x/10⌋): the
    cell there, if the grid has one, is negated, every other cell keeps its
    value, and a second click at the same pixel gives the original grid
    back. *)
Theorem toggleCell_involution (g : Grid) (x y : Z) :
  (∀ tr tc, cellOfPixel x y = (tr, tc) ↔
            (10 * tr ≤ y < 10 * tr + 10 ∧ 10 * tc ≤ x < 10 * tc + 10))
  ∧ (∀ r c cell,
       cellOfPixel x y = (Z.of_nat r, Z.of_nat c) →
       cellAt g r c = Some cell →
       cellAt (toggleCell g x y) r c = Some (negb cell))
  ∧ (∀ r c,
       cellOfPixel x y ≠ (Z.of_nat r, Z.of_nat c) →
       cellAt (toggleCell g x y) r c = cellAt g r c)
  ∧ toggleCell (toggleCell g x y) x y = g.
Proof.
  split; [|split; [|split]].
  - intros tr tc. unfold cellOfPixel, CELL_SIZE. split.
    + intros [= <- <-].
      pose proof (Z.mul_div_le y 10). pose proof (Z.mul_succ_div_gt y 10).
      pose proof (Z.mul_div_le x 10). pose proof (Z.mul_succ_div_gt x 10). lia.
    + intros [Hy Hx]. f_equal; symmetry.
      * apply (Z.div_unique_pos y 10 tr (y - 10 * tr)); lia.
      * apply (Z.div_unique_pos x 10 tc (x - 10 * tc)); lia.
  - intros r c cell [= Hr Hc] Hcell.
    rewrite cellAt_toggleCell, Hcell. simpl.
    unfold CELL_SIZE in *. by rewrite decide_True.
  - intros r c Hne. rewrite cellAt_toggleCell.
    destruct (cellAt g r c); simpl; [|done].
    rewrite decide_False; [done|]. intros [Hr Hc]. apply Hne.
    unfold cellOfPixel, CELL_SIZE. by rewrite Hr, Hc.
  - apply grid_ext.
    + by rewrite !toggleCell_length.
    + intros r row2 row H2 H.
      destruct (lookup_lt_is_Some_2 (toggleCell g x y) r) as [row1 H1].
      { rewrite toggleCell_length. by eapply lookup_lt_Some. }
      rewrite (toggleCell_row_length _ _ _ _ _ _ H2 H1).
      apply (toggleCell_row_length _ _ _ _ _ _ H1 H).
    + intros r c. rewrite !cellAt_toggleCell.
      destruct (cellAt g r c) as [cell|]; simpl; [|done].
      destruct (decide _); [|done]. by rewrite negb_involutive.
Qed.

Lemma toggleCell_involution_witness :
  let g := [ [false; true; false]; [false; false; false] ] in
  cellAt (toggleCell g 25 13) 1 2 = Some true
  ∧ cellAt (toggleCell g 25 13) 0 1 = Some true
  ∧ toggleCell (toggleCell g 25 13) 25 13 = g.
Proof.
  intros g.
  destruct (toggleCell_involution g 25 13) as (_ & Hhit & Hmiss & Hinv).
  split; [|split].
  - apply (Hhit 1%nat 2%nat false); reflexivity.
  - rewrite Hmiss; [reflexivity|discriminate].
  - exact Hinv.
Defined.

(** ** Reads stay inside the grid *)

Lemma rect_get2_is_Some rows cols (g : Grid) (a b : Z) :
  rectangular rows cols g →
  0 ≤ a < Z.of_nat rows → 0 ≤ b < Z.of_nat cols →
  is_Some (JS.get2 g a b).
Proof.
  intros Hrect Ha Hb.
  rewrite <- (Z2Nat.id a), <- (Z2Nat.id b) by lia. rewrite get2_of_nat.
  apply (rectangular_cellAt rows cols); [done|lia].
Qed.

Lemma neighborReads_in_range rows cols (g : Grid) (r c : nat) :
  (0 < rows)%nat → rectangular rows cols g →
  (r < rows)%nat → (c < cols)%nat →
  length (neighborReads g (Z.of_nat r) (Z.of_nat c)) = 8%nat
  ∧ Forall (inRange rows cols g) (neighborReads g (Z.of_nat r) (Z.of_nat c)).
Proof.
  intros Hrows Hrect Hr Hc.
  assert (Hcols : (0 < cols)%nat) by lia.
  assert (Hpos : ∀ i j, inRange rows cols g
            ((Z.of_nat r + i) `mod` Z.of_nat rows, (Z.of_nat c + j) `mod` Z.of_nat cols)).
  { intros i j.
    pose proof (Z.mod_pos_bound (Z.of_nat r + i) (Z.of_nat rows)).
    pose proof (Z.mod_pos_bound (Z.of_nat c + j) (Z.of_nat cols)).
    unfold inRange. cbn [fst snd].
    split; [lia|]. split; [lia|].
    apply (rect_get2_is_Some rows cols); (done || lia). }
  unfold neighborReads, offsets. cbn [foldl Z.eqb andb].
  rewrite !(neighborIndex_rect rows cols g Hrows Hcols Hrect) by (done || lia).
  cbn [app]. split; [reflexivity|].
  repeat (apply Forall_cons; split; [apply Hpos|]). apply Forall_nil_2.
Qed.

(** C9. The grid operations have no failing read on well-formed input: a
    click whose cell indices fall outside the grid returns the grid as it
    was; on a non-empty rectangular grid [countNeighbors] reads exactly
    eight positions, each inside the grid (the modulus is never [NaN] and
    every read finds a cell); and the glider overlay never stores
    [undefined]. *)
Theorem grid_operations_in_range (rows cols : nat) (g : Grid) :
  rectangular rows cols g →
  (∀ x y,
     (cellOfPixel x y).1 < 0 ∨ Z.of_nat rows ≤ (cellOfPixel x y).1
     ∨ (cellOfPixel x y).2 < 0 ∨ Z.of_nat cols ≤ (cellOfPixel x y).2 →
     toggleCell g x y = g)
  ∧ (∀ r c,
       (r < rows)%nat → (c < cols)%nat →
       length (neighborReads g (Z.of_nat r) (Z.of_nat c)) = 8%nat
       ∧ Forall (inRange rows cols g) (neighborReads g (Z.of_nat r) (Z.of_nat c)))
  ∧ (∀ hover,
       addGliderRaw g hover = (λ row : list Cell, Some <$> row) <$> addGlider g hover).
Proof.
  intros Hrect. split; [|split].
  - intros x y Hout. apply grid_ext.
    + apply toggleCell_length.
    + intros r row' row. apply toggleCell_row_length.
    + intros r c. rewrite cellAt_toggleCell.
      destruct (cellAt g r c) as [cell|] eqn:Hcell; simpl; [|done].
      destruct (proj1 (rectangular_cellAt _ _ _ r c Hrect)) as [Hr Hc]; [by eexists|].
      rewrite decide_False; [done|].
      unfold cellOfPixel, CELL_SIZE in Hout. cbn [fst snd] in Hout. lia.
  - intros r c Hr Hc. apply neighborReads_in_range; [lia|done..].
  - intros hover. apply addGliderRaw_defined.
Qed.

Lemma grid_operations_in_range_witness :
  let g := [ [false; true; false]; [false; false; true] ] in
  toggleCell g 35 5 = g
  ∧ toggleCell g (-1) 5 = g
  ∧ Forall (inRange 2 3 g) (neighborReads g 0 0).
Proof.
  intros g.
  destruct (grid_operations_in_range 2 3 g) as (Hclick & Hreads & _).
  { split; [reflexivity|]. repeat constructor. }
  split; [|split].
  - apply Hclick. vm_compute. right. right. right. discriminate.
  - apply Hclick. vm_compute. right. right. left. reflexivity.
  - apply (Hreads 0%nat 0%nat); lia.
Defined.

(** ** Fixed points of the transition *)

Lemma updateGrid_length (g : Grid) : length (updateGrid g) = length g.
Proof. unfold updateGrid. by rewrite length_imap. Qed.

Lemma updateGrid_row_length (g : Grid) r row' row :
  updateGrid g !! r = Some row' → g !! r = Some row → length row' = length row.
Proof.
  unfold updateGrid. rewrite list_lookup_imap. intros H1 H2.
  rewrite H2 in H1. simplify_eq/=. by rewrite length_imap.
Qed.

(** A grid is a fixed point as soon as every cell keeps its value. *)
Lemma updateGrid_fixed (g : Grid) :
  (∀ r c cell, cellAt g r c = Some cell →
     nextCell cell (countNeighbors g (Z.of_nat r) (Z.of_nat c)) = cell) →
  updateGrid g = g.
Proof.
  intros Hkeep. apply grid_ext.
  - apply updateGrid_length.
  - intros r row' row. apply updateGrid_row_length.
  - intros r c. rewrite cellAt_updateGrid.
    destruct (cellAt g r c) as [cell|] eqn:Hcell; simpl; [|done].
    f_equal. by apply Hkeep.
Qed.

Lemma allDead_get2 (g : Grid) (a b : Z) :
  allDead g → JS.truthy (JS.get2 g a b) = false.
Proof.
  intros Hall. destruct (JS.get2 g a b) as [cell|] eqn:Hget; [|done].
  simpl. unfold JS.get2 in Hget.
  destruct (Z.le_gt_cases 0 a) as [Ha | Ha]; [|by rewrite get_neg in Hget by lia].
  rewrite <- (Z2Nat.id a), get_of_nat in Hget by lia.
  destruct (g !! Z.to_nat a) as [row|] eqn:Hrow; [|done].
  destruct (Z.le_gt_cases 0 b) as [Hb | Hb]; [|by rewrite get_neg in Hget by lia].
  rewrite <- (Z2Nat.id b), get_of_nat in Hget by lia.
  apply (allDead_cellAt g (Z.to_nat a) (Z.to_nat b)); [done|].
  unfold cellAt. by rewrite Hrow.
Qed.

Lemma allDead_countNeighbors (g : Grid) (row col : Z) :
  allDead g → countNeighbors g row col = 0.
Proof.
  intros Hall.
  assert (Hdead : ∀ i j, neighborAlive g row col i j = false).
  { intros i j. unfold neighborAlive.
    destruct (neighborIndex g row col i j) as [[nr nc]|]; [|done].
    by apply allDead_get2. }
  unfold countNeighbors, offsets. cbn [foldl Z.eqb andb].
  by rewrite !Hdead.
Qed.

Lemma updateGrid_allDead (g : Grid) : allDead g → updateGrid g = g.
Proof.
  intros Hall. apply updateGrid_fixed. intros r c cell Hcell.
  rewrite (allDead_cellAt _ _ _ _ Hall Hcell).
  by rewrite allDead_countNeighbors.
Qed.

(** The effects leave the grid alone, and do nothing at all when neither
    the visibility nor the two run flags changed. *)
Lemma runEffects_cells old new : cells (runEffects old new) = cells new.
Proof.
  unfold runEffects.
  destruct (Bool.eqb (inView old) (inView new)), (inView new),
    (Bool.eqb (systemRunning old) (systemRunning new)
     && Bool.eqb (userRunning old) (userRunning new)),
    (systemRunning new && userRunning new); reflexivity.
Qed.

Lemma settle_cells old new : cells (settle old new) = cells new.
Proof. unfold settle. by rewrite !runEffects_cells. Qed.

Lemma runEffects_same_deps old new :
  inView new = inView old → systemRunning new = systemRunning old →
  userRunning new = userRunning old → runEffects old new = new.
Proof.
  intros Hv Hs Hu. unfold runEffects. rewrite Hv, Hs, Hu.
  by rewrite !eqb_reflx.
Qed.

Lemma settle_same_deps old new :
  inView new = inView old → systemRunning new = systemRunning old →
  userRunning new = userRunning old → settle old new = new.
Proof.
  intros Hv Hs Hu. unfold settle.
  rewrite (runEffects_same_deps old new) by done.
  by apply runEffects_same_deps.
Qed.

(** After the second round of effects a third one changes nothing. *)
Lemma runEffects_quiescent old new :
  runEffects (runEffects old new) (settle old new) = settle old new.
Proof.
  unfold settle, runEffects.
  destruct old as [? ? so uo ro ? vo ?], new as [? ? sn un rn ? vn ?]; simpl.
  destruct so, uo, vo, sn, un, vn; reflexivity.
Qed.

(** C7. An all-dead grid is a fixed point of the transition: the result is
    the same grid, hence all dead and of the same dimensions; and clearing
    and then stepping while paused leaves the cleared grid in place. *)
Theorem updateGrid_dead_fixed_point (g : Grid) :
  allDead g →
  updateGrid g = g
  ∧ allDead (updateGrid g)
  ∧ length (updateGrid g) = length g
  ∧ (∀ hasSetShowName draws s,
       running s = false →
       cells (step (clear s)) = clearGrid
       ∧ cells (run hasSetShowName draws [KeyDown "c"; KeyDown "s"] s) = clearGrid
       ∧ allDead (cells (run hasSetShowName draws [KeyDown "c"; KeyDown "s"] s))).
Proof.
  intros Hall. rewrite (updateGrid_allDead g Hall).
  split; [done|]. split; [done|]. split; [done|].
  intros hasName draws s Hpaused.
  assert (Hstep : cells (step (clear s)) = clearGrid).
  { unfold step, clear. simpl. rewrite Hpaused. simpl.
    apply updateGrid_allDead, clearGrid_allDead. }
  assert (Hclear : dispatch hasName draws (KeyDown "c") s = clear s).
  { unfold dispatch. simpl. unfold handleKeyDown. simpl.
    by apply settle_same_deps. }
  assert (Hrun : cells (run hasName draws [KeyDown "c"; KeyDown "s"] s) = clearGrid).
  { simpl. rewrite Hclear. unfold dispatch. rewrite settle_cells.
    simpl. unfold handleKeyDown. simpl. exact Hstep. }
  split; [done|]. split; [done|].
  rewrite Hrun. apply clearGrid_allDead.
Qed.

Lemma updateGrid_dead_fixed_point_witness :
  let g := [ [false; false; false]; [false; false; false] ] in
  allDead g
  ∧ updateGrid g = g
  ∧ cells (step (clear (mkState [ [true] ] None true true false false true false)))
    = clearGrid.
Proof.
  intros g.
  assert (Hall : allDead g) by (repeat constructor).
  destruct (updateGrid_dead_fixed_point g Hall) as (Hfix & _ & _ & Hstep).
  split; [exact Hall|]. split; [exact Hfix|].
  apply (Hstep false (λ _ _, 0%Q)). reflexivity.
Defined.

(** ** The block still life *)

(** A block that stays clear of the first and last index is not seen
    through the wrap-around. *)
Lemma inSpan_wrap (n a z i : Z) :
  1 ≤ a → a + 2 < n → 0 ≤ z < n → -1 ≤ i ≤ 1 →
  inSpan a ((z + i) `mod` n) = inSpan a (z + i).
Proof.
  intros Ha Hn Hz Hi.
  destruct (decide (z + i = -1)) as [Hlow | Hlow].
  { rewrite Hlow. replace ((-1) `mod` n) with (n - 1)
      by (apply (Z.mod_unique_pos _ _ (-1)); lia).
    unfold inSpan. destruct (Z.leb_spec a (n - 1)), (Z.leb_spec (n - 1) (a + 1)),
      (Z.leb_spec a (-1)), (Z.leb_spec (-1) (a + 1)); simpl; (done || lia). }
  destruct (decide (z + i = n)) as [Hhigh | Hhigh].
  { rewrite Hhigh, Z_mod_same_full.
    unfold inSpan. destruct (Z.leb_spec a 0), (Z.leb_spec 0 (a + 1)),
      (Z.leb_spec a n), (Z.leb_spec n (a + 1)); simpl; (done || lia). }
  by rewrite Z.mod_small by lia.
Qed.

(** How a window of three consecutive indices can meet a span of two. *)
Lemma inSpan_window (a z : Z) :
  (inSpan a (z + -1), inSpan a (z + 0), inSpan a (z + 1))
  ∈ [ (false, false, false); (false, false, true); (false, true, true);
      (true, true, false); (true, false, false) ].
Proof.
  unfold inSpan. rewrite !elem_of_cons.
  destruct (Z.leb_spec a (z + -1)), (Z.leb_spec (z + -1) (a + 1)),
    (Z.leb_spec a (z + 0)), (Z.leb_spec (z + 0) (a + 1)),
    (Z.leb_spec a (z + 1)), (Z.leb_spec (z + 1) (a + 1)); simpl;
    (lia || tauto).
Qed.

Section Block.

Variables (rows cols : nat) (g : Grid) (r0 c0 : Z).
Hypothesis Hrect : rectangular rows cols g.
Hypothesis Hr0 : 1 ≤ r0 ∧ r0 + 2 < Z.of_nat rows.
Hypothesis Hc0 : 1 ≤ c0 ∧ c0 + 2 < Z.of_nat cols.
Hypothesis Hblock : ∀ r c, (r < rows)%nat → (c < cols)%nat →
  cellAt g r c = Some (inBlock r0 c0 (Z.of_nat r) (Z.of_nat c)).

Lemma block_neighborAlive (r c : nat) (i j : Z) :
  (r < rows)%nat → (c < cols)%nat → -1 ≤ i ≤ 1 → -1 ≤ j ≤ 1 →
  neighborAlive g (Z.of_nat r) (Z.of_nat c) i j
  = inSpan r0 (Z.of_nat r + i) && inSpan c0 (Z.of_nat c + j).
Proof using Hrect Hr0 Hc0 Hblock.
  intros Hr Hc Hi Hj.
  rewrite (neighborAlive_rect rows cols g) by (done || lia).
  pose proof (Z.mod_pos_bound (Z.of_nat r + i) (Z.of_nat rows)).
  pose proof (Z.mod_pos_bound (Z.of_nat c + j) (Z.of_nat cols)).
  unfold isLive. cbn [fst snd]. rewrite Hblock by lia. simpl.
  rewrite !Z2Nat.id by lia. unfold inBlock.
  by rewrite !inSpan_wrap by lia.
Qed.

Lemma block_cell_stable (r c : nat) :
  (r < rows)%nat → (c < cols)%nat →
  nextCell (inBlock r0 c0 (Z.of_nat r) (Z.of_nat c))
           (countNeighbors g (Z.of_nat r) (Z.of_nat c))
  = inBlock r0 c0 (Z.of_nat r) (Z.of_nat c).
Proof using Hrect Hr0 Hc0 Hblock.
  intros Hr Hc. unfold countNeighbors, offsets. cbn [foldl Z.eqb andb].
  rewrite !block_neighborAlive by (done || lia).
  unfold inBlock. replace (Z.of_nat r) with (Z.of_nat r + 0) at 1 by lia.
  replace (Z.of_nat c) with (Z.of_nat c + 0) at 1 by lia.
  replace (inSpan r0 (Z.of_nat r)) with (inSpan r0 (Z.of_nat r + 0))
    by (f_equal; lia).
  replace (inSpan c0 (Z.of_nat c)) with (inSpan c0 (Z.of_nat c + 0))
    by (f_equal; lia).
  pose proof (inSpan_window r0 (Z.of_nat r)) as Hrw.
  pose proof (inSpan_window c0 (Z.of_nat c)) as Hcw.
  rewrite !elem_of_cons, elem_of_nil in Hrw, Hcw.
  destruct Hrw as [Hrw | [Hrw | [Hrw | [Hrw | [Hrw | []]]]]];
    destruct Hcw as [Hcw | [Hcw | [Hcw | [Hcw | [Hcw | []]]]]];
    injection Hrw as -> -> ->; injection Hcw as -> -> ->; reflexivity.
Qed.

Lemma block_fixed : updateGrid g = g.
Proof using Hrect Hr0 Hc0 Hblock.
  apply updateGrid_fixed. intros r c cell Hcell.
  destruct (proj1 (rectangular_cellAt _ _ _ r c Hrect)) as [Hr Hc]; [by eexists|].
  rewrite Hblock in Hcell by done. injection Hcell as <-.
  by apply block_cell_stable.
Qed.

End Block.

Example block_4x4 :
  updateGrid [ [false; false; false; false];
               [false; true;  true;  false];
               [false; true;  true;  false];
               [false; false; false; false] ]
  = [ [false; false; false; false];
      [false; true;  true;  false];
      [false; true;  true;  false];
      [false; false; false; false] ].
Proof. reflexivity. Qed.

(** C8. A grid whose live cells are exactly a 2×2 block that touches
    neither the first nor the last row or column is a fixed point of the
    transition, so applying the transition twice returns the grid
    unchanged. *)
Theorem block_still_life (rows cols : nat) (g : Grid) (r0 c0 : Z) :
  rectangular rows cols g →
  1 ≤ r0 → r0 + 2 < Z.of_nat rows →
  1 ≤ c0 → c0 + 2 < Z.of_nat cols →
  (∀ r c, (r < rows)%nat → (c < cols)%nat →
     cellAt g r c = Some (inBlock r0 c0 (Z.of_nat r) (Z.of_nat c))) →
  updateGrid g = g ∧ updateGrid (updateGrid g) = g.
Proof.
  intros Hrect Hr1 Hr2 Hc1 Hc2 Hblock.
  assert (Hfix : updateGrid g = g)
    by (by apply (block_fixed rows cols g r0 c0)).
  split; [done|]. by rewrite !Hfix.
Qed.

Lemma block_still_life_witness :
  let g := [ [false; false; false; false; false];
             [false; false; true;  true;  false];
             [false; false; true;  true;  false];
             [false; false; false; false; false] ] in
  updateGrid g = g ∧ updateGrid (updateGrid g) = g.
Proof.
  intros g. apply (block_still_life 4 5 g 1 2); try lia.
  - split; [reflexivity|]. repeat constructor.
  - intros r c Hr Hc.
    destruct r as [|[|[|[|r]]]]; try lia;
      destruct c as [|[|[|[|[|c]]]]]; try lia; reflexivity.
Defined.

(** ** Shape of the grid *)

Lemma handle_cells_wellShaped hasSetShowName draws e s :
  wellShaped (cells s) → wellShaped (cells (handle hasSetShowName draws e s)).
Proof.
  intros Hs.
  assert (Hstep : wellShaped (cells (step s))).
  { unfold step. destruct (running s); [done|]. by apply updateGrid_rectangular. }
  assert (Hglider : wellShaped (cells (addGliderHandler s)))
    by (by apply addGlider_rectangular).
  destruct e; simpl.
  - unfold handleKeyDown.
    repeat match goal with
           | |- context [String.eqb ?a ?b] => destruct (String.eqb a b)
           end;
      try destruct hasSetShowName; simpl;
      first [ done | apply randomGrid_wellShaped | apply clearGrid_wellShaped ].
  - by apply toggleCell_rectangular.
  - done.
  - done.
  - destruct (running s); [|done]. by apply updateGrid_rectangular.
  - done.
  - done.
  - by destruct (showControls s).
  - by destruct (showControls s).
  - destruct (showControls s); [apply randomGrid_wellShaped|done].
  - destruct (showControls s); [apply clearGrid_wellShaped|done].
  - by destruct (showControls s), hasSetShowName.
  - by destruct (showControls s).
  - by destruct (showControls s).
Qed.

Lemma mount_cells draws inView0 showName0 :
  cells (mount draws inView0 showName0) = randomGrid draws.
Proof. unfold mount. rewrite runEffects_cells. by destruct inView0. Qed.

(** C5. The grid always has 108 = 1080/10 rows of 192 = 1920/10 cells: the
    initial grid, [random] and [clear] build that shape, the simulation
    step, the cell toggle and the glider insertion keep it, and so it holds
    in every state the widget can reach. *)
Theorem grid_shape_invariant :
  Z.of_nat gridRows = HEIGHT / CELL_SIZE ∧ gridRows = 108%nat
  ∧ Z.of_nat gridCols = WIDTH / CELL_SIZE ∧ gridCols = 192%nat
  ∧ (∀ g, wellShaped g → wellShaped (updateGrid g))
  ∧ (∀ draws, wellShaped (randomGrid draws))
  ∧ wellShaped clearGrid
  ∧ (∀ g x y, wellShaped g → wellShaped (toggleCell g x y))
  ∧ (∀ g hover, wellShaped g → wellShaped (addGlider g hover))
  ∧ (∀ hasSetShowName draws e s,
       wellShaped (cells s) →
       wellShaped (cells (dispatch hasSetShowName draws e s)))
  ∧ (∀ hasSetShowName s, reachable hasSetShowName s → wellShaped (cells s)).
Proof.
  assert (Hdispatch : ∀ hasSetShowName draws e s,
            wellShaped (cells s) →
            wellShaped (cells (dispatch hasSetShowName draws e s))).
  { intros hasName draws e s Hs. unfold dispatch. rewrite settle_cells.
    by apply handle_cells_wellShaped. }
  assert (Hreach : ∀ hasSetShowName s,
            reachable hasSetShowName s → wellShaped (cells s)).
  { intros hasName s Hs. induction Hs as [draws v n | draws e s Hs IH].
    - rewrite mount_cells. apply randomGrid_wellShaped.
    - by apply Hdispatch. }
  split; [reflexivity|]. split; [reflexivity|].
  split; [reflexivity|]. split; [reflexivity|].
  split; [intros g; apply updateGrid_rectangular|].
  split; [apply randomGrid_wellShaped|].
  split; [apply clearGrid_wellShaped|].
  split; [intros g x y; apply toggleCell_rectangular|].
  split; [intros g hover; apply addGlider_rectangular|].
  split; [exact Hdispatch | exact Hreach].
Qed.

Lemma grid_shape_invariant_witness :
  wellShaped clearGrid
  ∧ wellShaped (updateGrid (addGlider (toggleCell clearGrid 15 25) None)).
Proof.
  destruct grid_shape_invariant
    as (_ & _ & _ & _ & Hstep & _ & Hclear & Htoggle & Hglider & _).
  split; [exact Hclear|].
  apply Hstep, Hglider, Htoggle, Hclear.
Defined.

(** ** The step control *)

(** C6. The step control (the "s" key, or the Step button while the menu is
    shown) replaces the grid by its next generation, once, and changes
    nothing else when [running] is false; it changes nothing at all when
    [running] is true. *)
Theorem step_only_while_paused (hasSetShowName : bool) (draws : nat → nat → Q)
    (s : State) :
  (running s = false →
     step s = setCells (updateGrid (cells s)) s
     ∧ dispatch hasSetShowName draws (KeyDown "s") s
       = setCells (updateGrid (cells s)) s
     ∧ (showControls s = true →
        dispatch hasSetShowName draws StepButton s
        = setCells (updateGrid (cells s)) s))
  ∧ (running s = true →
     step s = s
     ∧ dispatch hasSetShowName draws (KeyDown "s") s = s
     ∧ dispatch hasSetShowName draws StepButton s = s).
Proof.
  assert (Hkey : dispatch hasSetShowName draws (KeyDown "s") s = step s).
  { unfold dispatch. simpl. unfold handleKeyDown. simpl.
    apply settle_same_deps; unfold step; by destruct (running s). }
  assert (Hbutton : dispatch hasSetShowName draws StepButton s
                    = if showControls s then step s else s).
  { unfold dispatch. simpl.
    apply settle_same_deps; unfold step;
      by destruct (showControls s), (running s). }
  rewrite Hkey, Hbutton. unfold step. split; intros ->.
  - split; [done|]. split; [done|]. by intros ->.
  - split; [done|]. split; [done|]. by destruct (showControls s).
Qed.

Lemma step_only_while_paused_witness :
  let blinker := [ [false; false; false];
                   [true;  true;  true];
                   [false; false; false] ] in
  let paused := mkState blinker None true false false true true false in
  let playing := mkState blinker None true true true true true false in
  cells (step paused) = [ [true; true; true]; [true; true; true]; [true; true; true] ]
  ∧ step playing = playing.
Proof.
  intros blinker paused playing.
  destruct (step_only_while_paused false (λ _ _, 0%Q) paused) as [Hpaused _].
  destruct (step_only_while_paused false (λ _ _, 0%Q) playing) as [_ Hplaying].
  split.
  - destruct Hpaused as [-> _]; reflexivity.
  - destruct Hplaying as [-> _]; reflexivity.
Defined.

(** ** The derived run flag *)

Lemma mount_runningDerived draws inView0 showName0 :
  runningDerived (mount draws inView0 showName0).
Proof. unfold runningDerived. by destruct inView0. Qed.

(** Every handler except the "p" shortcut keeps [running] derived. *)
Lemma dispatch_runningDerived hasSetShowName draws e s :
  e ≠ KeyDown "p" →
  runningDerived s →
  runningDerived (dispatch hasSetShowName draws e s).
Proof.
  unfold runningDerived. intros Hp Hs.
  assert (Hsame : ∀ s', inView s' = inView s →
            systemRunning s' = systemRunning s → userRunning s' = userRunning s →
            running s' = running s →
            running (settle s s') = systemRunning (settle s s') && userRunning (settle s s')).
  { intros s' Hv Hsys Hu Hr. rewrite settle_same_deps by done. congruence. }
  assert (Htoggle :
            running (settle s (setUserRunning (negb (userRunning s)) s))
            = systemRunning (settle s (setUserRunning (negb (userRunning s)) s))
              && userRunning (settle s (setUserRunning (negb (userRunning s)) s))).
  { unfold settle, runEffects. destruct s as [? ? sys usr rn ? v ?]; simpl in *.
    by destruct sys, usr, v. }
  destruct e; unfold dispatch; simpl.
  - unfold handleKeyDown.
    destruct (String.eqb_spec key " "); [exact Htoggle|].
    destruct (String.eqb_spec key "r"); [by apply Hsame|].
    destruct (String.eqb_spec key "c"); [by apply Hsame|].
    destruct (String.eqb_spec key "s").
    { unfold step. destruct (running s) eqn:Hr; by apply Hsame. }
    destruct (String.eqb_spec key "p"); [congruence|].
    destruct (String.eqb_spec key "m"); [by apply Hsame|].
    destruct (String.eqb_spec key "n"); [destruct hasSetShowName; by apply Hsame|].
    destruct (String.eqb_spec key "f"); [by apply Hsame|].
    destruct (String.eqb_spec key "g"); by apply Hsame.
  - by apply Hsame.
  - by apply Hsame.
  - by apply Hsame.
  - destruct (running s) eqn:Hr; by apply Hsame.
  - unfold settle, runEffects.
    destruct s as [? ? sys usr rn ? v ?]; simpl in *.
    by destruct sys, usr, v, visible.
  - by apply Hsame.
  - destruct (showControls s); [exact Htoggle|by apply Hsame].
  - unfold step. destruct (showControls s), (running s) eqn:Hr; by apply Hsame.
  - destruct (showControls s); by apply Hsame.
  - destruct (showControls s); by apply Hsame.
  - destruct (showControls s), hasSetShowName; by apply Hsame.
  - destruct (showControls s); by apply Hsame.
  - destruct (showControls s); by apply Hsame.
Qed.

(** While [running] is derived and the widget is out of view, the timer
    does not exist and the step control is the only way to advance. *)
Lemma hidden_no_tick hasSetShowName draws s :
  runningDerived s → systemRunning s = false →
  dispatch hasSetShowName draws Tick s = s.
Proof.
  unfold runningDerived. intros Hs Hsys. rewrite Hsys in Hs. simpl in Hs.
  unfold dispatch. simpl. rewrite Hs. by apply settle_same_deps.
Qed.

(** Whenever [running] holds, a tick of the timer advances the grid. *)
Lemma running_tick hasSetShowName draws s :
  running s = true →
  cells (dispatch hasSetShowName draws Tick s) = updateGrid (cells s).
Proof.
  intros Hrun. unfold dispatch. rewrite settle_cells. cbn [handle].
  by rewrite Hrun.
Qed.

(** The "p" shortcut writes [running] itself, so it always leaves a state
    in which [running] is no longer the conjunction of the two flags. *)
Lemma p_key_breaks_runningDerived hasSetShowName draws s :
  runningDerived s →
  ¬ runningDerived (dispatch hasSetShowName draws (KeyDown "p") s).
Proof.
  unfold runningDerived. intros Hs.
  assert (Hp : dispatch hasSetShowName draws (KeyDown "p") s
               = setRunning (negb (running s)) s).
  { unfold dispatch. simpl. unfold handleKeyDown. simpl.
    by apply settle_same_deps. }
  rewrite Hp. simpl. rewrite <- Hs. by destruct (running s).
Qed.

(** C2 (the code departs from the claim).  The widget is mounted in view,
    scrolls out of view, and "p" is pressed: [running] is then true although
    [systemRunning] is false, so [running] is not the conjunction of the two
    flags, and the next timer tick replaces the grid by its next
    generation, which differs from the grid. *)
Theorem p_key_runs_while_hidden :
  let s := run false blinkerDraws [InViewChanged false; KeyDown "p"]
               (mount blinkerDraws true false) in
  reachable false s
  ∧ systemRunning s = false ∧ userRunning s = true ∧ running s = true
  ∧ running s ≠ (systemRunning s && userRunning s)
  ∧ cells (dispatch false blinkerDraws Tick s) = updateGrid (cells s)
  ∧ cellAt (cells s) 49 51 = Some false
  ∧ cellAt (cells (dispatch false blinkerDraws Tick s)) 49 51 = Some true.
Proof.
  intros s.
  assert (Hcells : cells s = randomGrid blinkerDraws).
  { unfold s. cbn [run]. unfold dispatch. rewrite !settle_cells.
    cbn [handle]. apply mount_cells. }
  assert (Hrun : running s = true) by (vm_compute; reflexivity).
  assert (Htick : cells (dispatch false blinkerDraws Tick s) = updateGrid (cells s)).
  { exact (running_tick false blinkerDraws s Hrun). }
  split; [repeat constructor|].
  split; [vm_compute; reflexivity|]. split; [vm_compute; reflexivity|].
  split; [exact Hrun|].
  split; [vm_compute; discriminate|]. split; [exact Htick|].
  rewrite Htick, cellAt_updateGrid, Hcells.
  split; vm_compute; reflexivity.
Qed.

(** ** Further facts about the run flags *)

Lemma settle_fields old new :
  inView (settle old new) = inView new
  ∧ userRunning (settle old new) = userRunning new
  ∧ mouseOverCell (settle old new) = mouseOverCell new
  ∧ showControls (settle old new) = showControls new
  ∧ showName (settle old new) = showName new
  ∧ systemRunning (settle old new)
    = (if Bool.eqb (inView old) (inView new) then systemRunning new
       else inView new).
Proof.
  unfold settle, runEffects.
  destruct old as [? ? so uo ro ? vo ?], new as [? ? sn un rn ? vn ?]; simpl.
  destruct so, uo, vo, sn, un, vn; simpl; done.
Qed.

(** Cracks a handler open: every key comparison and every flag test. *)
Ltac crack_handlers :=
  unfold handleKeyDown, step, random, clear, fullScreen, addGliderHandler,
    handleRunClick, handleMouseOver, handleMouseOut;
  repeat match goal with
         | |- context [String.eqb ?a ?b] => destruct (String.eqb a b)
         | |- context [if ?b then _ else _] => destruct b
         end.

Lemma handle_keeps_visibility hasSetShowName draws e s :
  (∀ v, e ≠ InViewChanged v) →
  inView (handle hasSetShowName draws e s) = inView s
  ∧ systemRunning (handle hasSetShowName draws e s) = systemRunning s.
Proof.
  intros He. destruct e; try (by destruct (He visible));
    simpl; crack_handlers; done.
Qed.

Lemma dispatch_synced hasSetShowName draws e s :
  synced s → synced (dispatch hasSetShowName draws e s).
Proof.
  unfold synced, dispatch. intros Hs.
  destruct (settle_fields s (handle hasSetShowName draws e s))
    as (-> & _ & _ & _ & _ & ->).
  assert (Hcase : (∃ v, e = InViewChanged v) ∨ (∀ v, e ≠ InViewChanged v))
    by (destruct e; first [by left; eexists | by right]).
  destruct Hcase as [[v ->] | He].
  - simpl. destruct (Bool.eqb_spec (inView s) v); congruence.
  - destruct (handle_keeps_visibility hasSetShowName draws e s He) as [-> ->].
    by rewrite eqb_reflx.
Qed.

Lemma mount_synced draws inView0 showName0 : synced (mount draws inView0 showName0).
Proof. unfold synced. by destruct inView0. Qed.

(** X1. In every state the widget can reach, [systemRunning] equals the
    visibility last reported, whatever keys were pressed; and when "p" is
    never pressed, [running] is [systemRunning && userRunning]
    throughout. *)
Theorem reachable_visibility_synced (hasSetShowName : bool) (s : State) :
  reachable hasSetShowName s →
  systemRunning s = inView s
  ∧ ∀ draws es,
      KeyDown "p" ∉ es →
      runningDerived s →
      runningDerived (run hasSetShowName draws es s)
      ∧ synced (run hasSetShowName draws es s).
Proof.
  intros Hs.
  assert (Hsync : synced s).
  { induction Hs as [draws v n | draws e s Hs IH];
      [apply mount_synced | by apply dispatch_synced]. }
  split; [exact Hsync|].
  intros draws es. clear Hs. revert s Hsync.
  induction es as [|e es IH]; intros s Hsync Hp Hder; [done|].
  simpl. apply not_elem_of_cons in Hp as [Hne Hp].
  apply IH; [by apply dispatch_synced | done |].
  apply dispatch_runningDerived; [congruence | done].
Qed.

Lemma reachable_visibility_synced_witness :
  let s := run false (λ _ _, 0%Q) [InViewChanged false; KeyDown "p"] (mount (λ _ _, 0%Q) true false) in
  systemRunning s = inView s.
Proof.
  intros s. apply (reachable_visibility_synced false s).
  unfold s. simpl. repeat constructor.
Defined.

(** The state after the effects have settled, written out. *)
Lemma settle_closed old new :
  settle old new
  = let sys' := if Bool.eqb (inView old) (inView new)
                then systemRunning new else inView new in
    let run1 := if Bool.eqb (systemRunning old) (systemRunning new)
                   && Bool.eqb (userRunning old) (userRunning new)
                then running new
                else systemRunning new && userRunning new in
    let run2 := if Bool.eqb (systemRunning new) sys' then run1
                else sys' && userRunning new in
    mkState (cells new) (mouseOverCell new) sys' (userRunning new) run2
            (showControls new) (inView new) (showName new).
Proof.
  unfold settle, runEffects.
  destruct old as [? ? so uo ro ? vo ?], new as [? ? sn un rn ? vn ?]; simpl.
  destruct so, uo, vo, sn, un, vn; reflexivity.
Qed.

Lemma dispatch_toggle_run hasSetShowName draws s :
  dispatch hasSetShowName draws (KeyDown " ") s
  = mkState (cells s) (mouseOverCell s) (systemRunning s) (negb (userRunning s))
            (systemRunning s && negb (userRunning s))
            (showControls s) (inView s) (showName s).
Proof.
  unfold dispatch. rewrite settle_closed.
  destruct s as [g m sys usr rn ctl v nm]. simpl.
  rewrite !eqb_reflx. simpl. by destruct sys, usr.
Qed.

Lemma dispatch_run_button hasSetShowName draws s :
  showControls s = true →
  dispatch hasSetShowName draws RunButton s
  = dispatch hasSetShowName draws (KeyDown " ") s.
Proof. intros Hctl. unfold dispatch. simpl. by rewrite Hctl. Qed.

Lemma dispatch_visibility hasSetShowName draws v s :
  synced s →
  dispatch hasSetShowName draws (InViewChanged v) s
  = mkState (cells s) (mouseOverCell s) v (userRunning s)
            (if Bool.eqb (inView s) v then running s else v && userRunning s)
            (showControls s) v (showName s).
Proof.
  unfold synced, dispatch. intros Hs. rewrite settle_closed.
  destruct s as [g m sys usr rn ctl v0 nm]. simpl in *. subst sys.
  rewrite !eqb_reflx. simpl. by destruct v0, v.
Qed.

(** X2. Pausing and resuming through the space key (or the Run button) is
    an exact round trip: from a state in which [running] is derived, two
    presses return the state they started from, and after the first one
    [running] is [systemRunning] and the flipped [userRunning]. *)
Theorem run_toggle_round_trip (hasSetShowName : bool) (draws : nat → nat → Q)
    (s : State) :
  runningDerived s →
  let s1 := dispatch hasSetShowName draws (KeyDown " ") s in
  userRunning s1 = negb (userRunning s)
  ∧ running s1 = systemRunning s && negb (userRunning s)
  ∧ cells s1 = cells s
  ∧ dispatch hasSetShowName draws (KeyDown " ") s1 = s
  ∧ (showControls s = true →
     dispatch hasSetShowName draws RunButton
       (dispatch hasSetShowName draws RunButton s) = s).
Proof.
  intros Hder s1. unfold s1.
  rewrite (dispatch_toggle_run hasSetShowName draws
             (dispatch hasSetShowName draws (KeyDown " ") s)).
  rewrite !dispatch_toggle_run. simpl.
  unfold runningDerived in Hder.
  split; [done|]. split; [done|]. split; [done|]. split.
  - rewrite negb_involutive, <- Hder. by destruct s.
  - intros Hctl. rewrite (dispatch_run_button _ _ s Hctl).
    rewrite dispatch_run_button by (by rewrite dispatch_toggle_run).
    rewrite !dispatch_toggle_run. simpl.
    rewrite negb_involutive, <- Hder. by destruct s.
Qed.

Lemma run_toggle_round_trip_witness :
  let s := mkState [ [true] ] None true true true false true false in
  running (dispatch false (λ _ _, 0%Q) (KeyDown " ") s) = false
  ∧ dispatch false (λ _ _, 0%Q) (KeyDown " ")
      (dispatch false (λ _ _, 0%Q) (KeyDown " ") s) = s.
Proof.
  intros s.
  destruct (run_toggle_round_trip false (λ _ _, 0%Q) s) as (_ & Hrun & _ & Hback & _).
  - reflexivity.
  - split; [exact Hrun | exact Hback].
Defined.

(** X3. Scrolling out of view and back does not touch the user's choice.
    From any state whose [systemRunning] matches the visibility, reporting
    the opposite visibility sets [systemRunning] to it, makes [running] its
    conjunction with the unchanged [userRunning] and leaves the grid alone;
    reporting the old visibility again gives the starting state with
    [running] set to [systemRunning && userRunning].  So the round trip
    restores the state exactly when [running] was derived to begin with,
    and only then: after "p" it re-derives [running] instead.  Reporting
    the visibility the widget already has changes nothing. *)
Theorem visibility_round_trip (hasSetShowName : bool) (draws : nat → nat → Q)
    (s : State) :
  synced s →
  let s1 := dispatch hasSetShowName draws (InViewChanged (negb (inView s))) s in
  let s2 := dispatch hasSetShowName draws (InViewChanged (inView s)) s1 in
  s1 = mkState (cells s) (mouseOverCell s) (negb (inView s)) (userRunning s)
               (negb (inView s) && userRunning s)
               (showControls s) (negb (inView s)) (showName s)
  ∧ s2 = setRunning (systemRunning s && userRunning s) s
  ∧ (s2 = s ↔ runningDerived s)
  ∧ dispatch hasSetShowName draws (InViewChanged (inView s)) s = s.
Proof.
  intros Hsync s1 s2.
  assert (Hsync1 : synced s1) by (by apply dispatch_synced).
  assert (H1 : s1 = mkState (cells s) (mouseOverCell s) (negb (inView s))
                      (userRunning s) (negb (inView s) && userRunning s)
                      (showControls s) (negb (inView s)) (showName s)).
  { unfold s1. rewrite (dispatch_visibility _ _ _ s Hsync).
    f_equal. by destruct (inView s). }
  assert (H2 : s2 = setRunning (systemRunning s && userRunning s) s).
  { unfold s2. rewrite (dispatch_visibility _ _ _ s1 Hsync1). rewrite H1. simpl.
    unfold synced in Hsync. unfold setRunning. rewrite Hsync.
    f_equal. by destruct (inView s). }
  split; [exact H1|]. split; [exact H2|]. split.
  - rewrite H2. unfold runningDerived. split.
    + intros Heq. apply (f_equal running) in Heq. by simpl in Heq.
    + intros <-. by destruct s.
  - rewrite (dispatch_visibility _ _ _ s Hsync). rewrite eqb_reflx.
    unfold synced in Hsync. rewrite <- Hsync at 1. by destruct s.
Qed.

Lemma visibility_round_trip_witness :
  let s := mkState [ [true] ] None true true true false true false in
  let p := mkState [ [true] ] None true true false false true false in
  running (dispatch false (λ _ _, 0%Q) (InViewChanged false) s) = false
  ∧ dispatch false (λ _ _, 0%Q) (InViewChanged true)
      (dispatch false (λ _ _, 0%Q) (InViewChanged false) s) = s
  ∧ dispatch false (λ _ _, 0%Q) (InViewChanged true)
      (dispatch false (λ _ _, 0%Q) (InViewChanged false) p) ≠ p.
Proof.
  intros s p.
  destruct (visibility_round_trip false (λ _ _, 0%Q) s) as (H1 & _ & Hback & _);
    [reflexivity|].
  destruct (visibility_round_trip false (λ _ _, 0%Q) p) as (_ & _ & Hp & _);
    [reflexivity|].
  split; [|split].
  - simpl in H1. by rewrite H1.
  - apply Hback. reflexivity.
  - intros Heq. apply Hp in Heq. discriminate Heq.
Defined.

(** X4. The deriving effect repairs [running] the next time one of its
    inputs changes: from any state whose [systemRunning] matches the
    visibility, whatever [running] is (for instance after "p"), a press of
    space, a click on the shown Run button or a change of visibility leaves
    [running] equal to [systemRunning && userRunning]. *)
Theorem running_rederived (hasSetShowName : bool) (draws : nat → nat → Q)
    (s : State) :
  synced s →
  runningDerived (dispatch hasSetShowName draws (KeyDown " ") s)
  ∧ (showControls s = true →
     runningDerived (dispatch hasSetShowName draws RunButton s))
  ∧ (∀ v, v ≠ inView s →
     runningDerived (dispatch hasSetShowName draws (InViewChanged v) s)).
Proof.
  intros Hsync. unfold runningDerived. split; [|split].
  - by rewrite dispatch_toggle_run.
  - intros Hctl. by rewrite (dispatch_run_button _ _ s Hctl), dispatch_toggle_run.
  - intros v Hv. rewrite (dispatch_visibility _ _ v s Hsync). simpl.
    destruct (Bool.eqb_spec (inView s) v); congruence.
Qed.

Lemma running_rederived_witness :
  let s := dispatch false (λ _ _, 0%Q) (KeyDown "p")
             (mkState [ [true] ] None false true false false false false) in
  running s = true ∧ systemRunning s = false
  ∧ runningDerived (dispatch false (λ _ _, 0%Q) (KeyDown " ") s).
Proof.
  intros s. split; [reflexivity|]. split; [reflexivity|].
  apply (running_rederived false (λ _ _, 0%Q) s). reflexivity.
Defined.

(** X5. The timer advances one generation per tick and touches nothing
    else: while [running] holds, [n] ticks leave the state with the grid
    replaced by the [n]-fold transition; while it does not hold, ticks
    change nothing, however many there are. *)
Theorem ticks_iterate (hasSetShowName : bool) (draws : nat → nat → Q)
    (n : nat) (s : State) :
  (running s = true →
   run hasSetShowName draws (replicate n Tick) s
   = setCells (Nat.iter n updateGrid (cells s)) s)
  ∧ (running s = false →
     run hasSetShowName draws (replicate n Tick) s = s).
Proof.
  assert (Htick : ∀ s', dispatch hasSetShowName draws Tick s'
            = if running s' then setCells (updateGrid (cells s')) s' else s').
  { intros s'. unfold dispatch. simpl.
    apply settle_same_deps; by destruct (running s'). }
  split.
  - revert s. induction n as [|n IH]; intros s Hrun.
    + by destruct s.
    + simpl. rewrite Htick, Hrun. rewrite IH by done. simpl.
      unfold setCells. simpl. f_equal.
      clear. induction n as [|n IH]; [done|]. simpl. by rewrite IH.
  - intros Hrun. induction n as [|n IH]; [done|].
    simpl. by rewrite Htick, Hrun.
Qed.

Lemma ticks_iterate_witness :
  let blinker := [ [false; false; false; false; false];
                   [false; false; true;  false; false];
                   [false; false; true;  false; false];
                   [false; false; true;  false; false];
                   [false; false; false; false; false] ] in
  let playing := mkState blinker None true true true false true false in
  let paused := mkState blinker None true false false false true false in
  cells (run false (λ _ _, 0%Q) [Tick; Tick] playing) = blinker
  ∧ run false (λ _ _, 0%Q) [Tick; Tick; Tick] paused = paused.
Proof.
  intros blinker playing paused.
  destruct (ticks_iterate false (λ _ _, 0%Q) 2 playing) as [Hplay _].
  destruct (ticks_iterate false (λ _ _, 0%Q) 3 paused) as [_ Hpause].
  split.
  - change [Tick; Tick] with (replicate 2 Tick). rewrite Hplay; reflexivity.
  - apply Hpause. reflexivity.
Defined.

(** ** Pointer, keys and buttons *)

(** X6. The glider goes where the pointer is: after a mouse move to the
    pixel (x, y) the "g" key inserts the glider anchored at the cell under
    the pointer, and after the pointer left the canvas it inserts it at
    (50, 50); if the cell under the pointer is a cell of the grid, that cell
    is live afterwards. *)
Theorem glider_follows_pointer (hasSetShowName : bool) (draws : nat → nat → Q)
    (s : State) (x y : Z) :
  cells (run hasSetShowName draws [MouseMove x y; KeyDown "g"] s)
  = addGlider (cells s) (Some (y `div` 10, x `div` 10))
  ∧ cells (run hasSetShowName draws [MouseOut; KeyDown "g"] s)
    = addGlider (cells s) (Some (50, 50))
  ∧ (∀ r c,
       y `div` 10 = Z.of_nat r → x `div` 10 = Z.of_nat c →
       is_Some (cellAt (cells s) r c) →
       cellAt (cells (run hasSetShowName draws [MouseMove x y; KeyDown "g"] s)) r c
       = Some true).
Proof.
  assert (Hmove : cells (run hasSetShowName draws [MouseMove x y; KeyDown "g"] s)
                  = addGlider (cells s) (Some (y `div` 10, x `div` 10))).
  { cbn [run]. unfold dispatch. rewrite !settle_cells. cbn [handle].
    unfold handleKeyDown. simpl. rewrite !settle_closed. reflexivity. }
  split; [exact Hmove|]. split.
  - cbn [run]. unfold dispatch. rewrite !settle_cells. cbn [handle].
    unfold handleKeyDown. simpl. rewrite !settle_closed. reflexivity.
  - intros r c Hr Hc [cell Hcell]. rewrite Hmove, cellAt_addGlider, Hcell.
    simpl. rewrite decide_True by (unfold inFootprint; simpl; lia).
    rewrite Hr, Hc, !Z.sub_diag. reflexivity.
Qed.

Lemma glider_follows_pointer_witness :
  let s := mkState [ [false; false; false; false];
                     [false; false; false; false];
                     [false; false; false; false];
                     [false; false; false; false] ]
                   None true false false false true false in
  cellAt (cells (run false (λ _ _, 0%Q) [MouseMove 13 27; KeyDown "g"] s)) 2 1
  = Some true.
Proof.
  intros s.
  destruct (glider_follows_pointer false (λ _ _, 0%Q) s 13 27) as (_ & _ & Hlive).
  apply Hlive; [reflexivity | reflexivity | by eexists].
Defined.

(** X7. Each control of the menu does what the shortcut printed on it
    does: while the menu is shown, a click on Run, Step, Random, Clear,
    Name, Full Screen or Add Glider leads to the same state as the key
    space, s, r, c, n, f or g; the Menu button equals "m" whether the menu
    is shown or not; and while the menu is hidden the other buttons do not
    exist, so their events change nothing. *)
Theorem buttons_match_shortcuts (hasSetShowName : bool) (draws : nat → nat → Q)
    (s : State) :
  dispatch hasSetShowName draws MenuButton s
  = dispatch hasSetShowName draws (KeyDown "m") s
  ∧ (showControls s = true →
     dispatch hasSetShowName draws RunButton s
     = dispatch hasSetShowName draws (KeyDown " ") s
     ∧ dispatch hasSetShowName draws StepButton s
       = dispatch hasSetShowName draws (KeyDown "s") s
     ∧ dispatch hasSetShowName draws RandomButton s
       = dispatch hasSetShowName draws (KeyDown "r") s
     ∧ dispatch hasSetShowName draws ClearButton s
       = dispatch hasSetShowName draws (KeyDown "c") s
     ∧ dispatch hasSetShowName draws NameButton s
       = dispatch hasSetShowName draws (KeyDown "n") s
     ∧ dispatch hasSetShowName draws FullScreenButton s
       = dispatch hasSetShowName draws (KeyDown "f") s
     ∧ dispatch hasSetShowName draws GliderButton s
       = dispatch hasSetShowName draws (KeyDown "g") s)
  ∧ (showControls s = false →
     ∀ e, e ∈ [RunButton; StepButton; RandomButton; ClearButton; NameButton;
               FullScreenButton; GliderButton] →
          dispatch hasSetShowName draws e s = s).
Proof.
  split; [reflexivity|]. split.
  - intros Hctl. unfold dispatch. simpl. rewrite Hctl. simpl.
    repeat split; reflexivity.
  - intros Hctl e He. unfold dispatch.
    rewrite !elem_of_cons, elem_of_nil in He.
    assert (Hid : handle hasSetShowName draws e s = s).
    { destruct He as [-> | [-> | [-> | [-> | [-> | [-> | [-> | []]]]]]]];
        simpl; by rewrite Hctl. }
    rewrite Hid. by apply settle_same_deps.
Qed.

Lemma buttons_match_shortcuts_witness :
  let s := mkState [ [true; false] ] None true false false true true false in
  dispatch true (λ _ _, 0%Q) ClearButton s = dispatch true (λ _ _, 0%Q) (KeyDown "c") s
  ∧ dispatch true (λ _ _, 0%Q) ClearButton (setShowControls false s)
    = setShowControls false s.
Proof.
  intros s.
  destruct (buttons_match_shortcuts true (λ _ _, 0%Q) s) as (_ & Hshown & _).
  destruct (buttons_match_shortcuts true (λ _ _, 0%Q) (setShowControls false s))
    as (_ & _ & Hhidden).
  split.
  - destruct Hshown as (_ & _ & _ & Hclear & _); [reflexivity | exact Hclear].
  - apply Hhidden; [reflexivity|]. rewrite !elem_of_cons. tauto.
Defined.

(** X8. Keys without a case in [handleKeyDown] are ignored, and the
    comparison is exact (an upper-case letter is another key): every key
    outside the nine shortcuts leaves the state as it is, and so does "n"
    when the embedding context supplied no [setShowName]. *)
Theorem other_keys_ignored (hasSetShowName : bool) (draws : nat → nat → Q)
    (s : State) (key : string) :
  key ∉ shortcutKeys ∨ (key = "n" ∧ hasSetShowName = false) →
  dispatch hasSetShowName draws (KeyDown key) s = s.
Proof.
  intros Hkey.
  assert (Hid : handle hasSetShowName draws (KeyDown key) s = s).
  { destruct Hkey as [Hkey | [-> ->]]; [|reflexivity].
    unfold shortcutKeys in Hkey. rewrite !not_elem_of_cons in Hkey.
    destruct Hkey as (? & ? & ? & ? & ? & ? & ? & ? & ? & _).
    simpl. unfold handleKeyDown.
    repeat match goal with
           | |- context [String.eqb ?a ?b] =>
               destruct (String.eqb_spec a b); [congruence|]
           end.
    reflexivity. }
  unfold dispatch. rewrite Hid. by apply settle_same_deps.
Qed.

Lemma other_keys_ignored_witness :
  let s := mkState [ [true; false] ] None true true true false true false in
  dispatch true (λ _ _, 0%Q) (KeyDown "R") s = s
  ∧ dispatch false (λ _ _, 0%Q) (KeyDown "n") s = s.
Proof.
  intros s. split.
  - apply other_keys_ignored. left. unfold shortcutKeys.
    rewrite !not_elem_of_cons. repeat split; try discriminate.
    apply not_elem_of_nil.
  - apply other_keys_ignored. right. split; reflexivity.
Defined.

(** X9. What each event can touch: the grid changes only through the keys
    r, c, s, g, a click on the canvas, a timer tick and the Step, Random,
    Clear and Add Glider buttons; the hovered cell only through mouse move
    and mouse out; and [userRunning], the user's choice, only through space
    and the Run button. *)
Theorem event_frame (hasSetShowName : bool) (draws : nat → nat → Q)
    (e : Event) (s : State) :
  (¬ mayChangeGrid e → cells (dispatch hasSetShowName draws e s) = cells s)
  ∧ (¬ mayChangeHover e →
     mouseOverCell (dispatch hasSetShowName draws e s) = mouseOverCell s)
  ∧ (¬ mayChangeUserRunning e →
     userRunning (dispatch hasSetShowName draws e s) = userRunning s).
Proof.
  unfold dispatch.
  destruct (settle_fields s (handle hasSetShowName draws e s))
    as (_ & -> & -> & _ & _ & _).
  rewrite settle_cells.
  split; [|split]; intros Hno; destruct e; simpl in *; try tauto;
    try (unfold handleKeyDown;
         repeat match goal with
                | |- context [String.eqb ?a ?b] =>
                    destruct (String.eqb_spec a b);
                    [try (subst; exfalso; apply Hno; rewrite ?elem_of_cons; tauto)|]
                end);
    crack_handlers; done.
Qed.

Lemma event_frame_witness :
  let s := mkState [ [true; false] ] (Some (0, 1)) true true true false true false in
  cells (dispatch false (λ _ _, 0%Q) (KeyDown "p") s) = cells s
  ∧ userRunning (dispatch false (λ _ _, 0%Q) (InViewChanged false) s) = true.
Proof.
  intros s.
  destruct (event_frame false (λ _ _, 0%Q) (KeyDown "p") s) as (Hgrid & _ & _).
  destruct (event_frame false (λ _ _, 0%Q) (InViewChanged false) s) as (_ & _ & Huser).
  split.
  - apply Hgrid. simpl. rewrite !elem_of_cons, elem_of_nil.
    intros [H | [H | [H | [H | []]]]]; discriminate H.
  - apply Huser. simpl. tauto.
Defined.

(** ** Further facts about the grid operations *)

(** Grids with the same number of rows and the same cells are equal. *)
Lemma grid_ext_len (g1 g2 : Grid) :
  length g1 = length g2 →
  (∀ r c, cellAt g1 r c = cellAt g2 r c) →
  g1 = g2.
Proof.
  intros Hlen Hcells. apply list_eq. intros r.
  destruct (g1 !! r) as [row1|] eqn:H1, (g2 !! r) as [row2|] eqn:H2.
  - f_equal. apply list_eq. intros c. specialize (Hcells r c).
    unfold cellAt in Hcells. by rewrite H1, H2 in Hcells.
  - apply lookup_lt_Some in H1. apply lookup_ge_None in H2. lia.
  - apply lookup_lt_Some in H2. apply lookup_ge_None in H1. lia.
  - done.
Qed.

Lemma cellAt_randomGrid draws r c :
  cellAt (randomGrid draws) r c
  = if decide (r < gridRows ∧ c < gridCols)%nat
    then Some (negb (Qle_bool (draws r c) RANDOM)) else None.
Proof.
  unfold cellAt, randomGrid.
  destruct (decide (r < gridRows ∧ c < gridCols)%nat) as [[Hr Hc] | Hout].
  - rewrite Array_from_lookup by done. by rewrite Array_from_lookup.
  - destruct (decide (r < gridRows)%nat) as [Hr | Hr].
    + rewrite Array_from_lookup by done. apply lookup_ge_None.
      rewrite Array_from_length. lia.
    + rewrite (proj2 (lookup_ge_None _ _)); [done|].
      rewrite Array_from_length. lia.
Qed.

(** X10. A cell of a random grid (the initial grid and the one the "r" key
    makes) is alive exactly when its draw is strictly above the constant
    [RANDOM], the double nearest to 0.8, which is 3602879701896397 / 2^52
    and lies 1 / (5 · 2^52) above 8/10: a draw equal to that double, or to
    8/10 or less, gives a dead cell.  There are cells at the 108 × 192
    positions only. *)
Theorem randomGrid_threshold (draws : nat → nat → Q) (r c : nat) :
  (cellAt (randomGrid draws) r c = Some true
   ↔ (r < 108)%nat ∧ (c < 192)%nat
     ∧ (3602879701896397 # 4503599627370496 < draws r c)%Q)
  ∧ (cellAt (randomGrid draws) r c = Some false
     ↔ (r < 108)%nat ∧ (c < 192)%nat
       ∧ (draws r c <= 3602879701896397 # 4503599627370496)%Q)
  ∧ (RANDOM == (8 # 10) + (1 # 22517998136852480))%Q
  ∧ (∀ inView0 showName0 hasSetShowName s,
       cells (mount draws inView0 showName0) = randomGrid draws
       ∧ cells (dispatch hasSetShowName draws (KeyDown "r") s) = randomGrid draws).
Proof.
  rewrite cellAt_randomGrid. change gridRows with 108%nat. change gridCols with 192%nat.
  unfold RANDOM.
  pose proof (Qle_bool_iff (draws r c) (3602879701896397 # 4503599627370496)) as Hle.
  split; [|split; [|split]].
  - destruct (decide (r < 108 ∧ c < 192)%nat) as [[Hr Hc] | Hout].
    + split.
      * intros [= Hb]. apply negb_true_iff in Hb.
        split; [done|]. split; [done|]. apply Qnot_le_lt. intros Hd.
        apply Hle in Hd. congruence.
      * intros (_ & _ & Hlt). f_equal. apply negb_true_iff.
        destruct (Qle_bool (draws r c) (3602879701896397 # 4503599627370496)) eqn:Hb;
          [|done].
        exfalso. apply (Qlt_not_le _ _ Hlt). by apply Hle.
    + split; [done|]. intros (? & ? & _). tauto.
  - destruct (decide (r < 108 ∧ c < 192)%nat) as [[Hr Hc] | Hout].
    + split.
      * intros [= Hb]. apply negb_false_iff in Hb.
        split; [done|]. split; [done|]. by apply Hle.
      * intros (_ & _ & Hd). f_equal. apply negb_false_iff. by apply Hle.
    + split; [done|]. intros (? & ? & _). tauto.
  - reflexivity.
  - intros v n hasName s. split; [apply mount_cells|].
    unfold dispatch. by rewrite settle_cells.
Qed.

Lemma randomGrid_threshold_witness :
  let draws := λ r c : nat,
    if decide (r = c) then (3602879701896398 # 4503599627370496)%Q
    else (3602879701896397 # 4503599627370496)%Q in
  cellAt (randomGrid draws) 3 3 = Some true
  ∧ cellAt (randomGrid draws) 3 4 = Some false.
Proof.
  intros draws. split.
  - apply randomGrid_threshold. split; [lia|]. split; [lia|]. reflexivity.
  - apply randomGrid_threshold. split; [lia|]. split; [lia|]. discriminate.
Defined.

(** X11. Two clicks at different places commute: toggling at one pixel and
    then at another gives the same grid as the other order. *)
Theorem toggleCell_commute (g : Grid) (x1 y1 x2 y2 : Z) :
  toggleCell (toggleCell g x1 y1) x2 y2 = toggleCell (toggleCell g x2 y2) x1 y1.
Proof.
  apply grid_ext_len; [by rewrite !toggleCell_length|].
  intros r c. rewrite !cellAt_toggleCell.
  destruct (cellAt g r c) as [cell|]; simpl; [|done].
  by repeat destruct (decide _).
Qed.

(** X12. Inserting the glider twice at the same anchor is the same as
    inserting it once, and the insertion wipes out an earlier click inside
    its footprint. *)
Theorem addGlider_idempotent (g : Grid) (hover : option (Z * Z)) :
  addGlider (addGlider g hover) hover = addGlider g hover
  ∧ (∀ x y r c,
       cellOfPixel x y = (Z.of_nat r, Z.of_nat c) →
       inFootprint (anchorOf hover) r c →
       addGlider (toggleCell g x y) hover = addGlider g hover).
Proof.
  split.
  - apply grid_ext_len; [by rewrite !addGlider_length|].
    intros r c. rewrite !cellAt_addGlider.
    destruct (cellAt g r c) as [cell|]; simpl; [|done].
    by destruct (decide _).
  - intros x y r c [= Hr Hc] Hin.
    apply grid_ext_len; [by rewrite !addGlider_length, toggleCell_length|].
    intros r' c'. rewrite !cellAt_addGlider, cellAt_toggleCell.
    destruct (cellAt g r' c') as [cell|]; simpl; [|done].
    destruct (decide (inFootprint (anchorOf hover) r' c')) as [|Hout]; [done|].
    rewrite decide_False; [done|]. unfold CELL_SIZE in *.
    intros [Hr' Hc']. apply Hout.
    assert (r' = r) as -> by lia. assert (c' = c) as -> by lia. done.
Qed.

Lemma addGlider_idempotent_witness :
  let g := [ [true; true; true; true];
             [true; true; true; true];
             [true; true; true; true];
             [true; true; true; true] ] in
  addGlider (toggleCell g 25 15) (Some (1, 1)) = addGlider g (Some (1, 1)).
Proof.
  intros g.
  destruct (addGlider_idempotent g (Some (1, 1))) as [_ Hwipe].
  apply (Hwipe 25 15 1%nat 2%nat); [reflexivity|].
  unfold inFootprint. simpl. lia.
Defined.

(** X13. [countNeighbors] never leaves the range 0..8, for any grid and any
    indices; it is 0 when the grid has no rows or its first row is empty
    (the modulus is then [NaN] and nothing is read), so on a grid whose
    first row is empty the transition kills every cell. *)
Theorem countNeighbors_bounds (g : Grid) (row col : Z) :
  0 ≤ countNeighbors g row col ≤ 8
  ∧ (numRowsOf g = 0 ∨ numColsOf g = 0 →
     countNeighbors g row col = 0 ∧ neighborReads g row col = [])
  ∧ (numColsOf g = 0 → allDead (updateGrid g)).
Proof.
  assert (Hdegenerate : numRowsOf g = 0 ∨ numColsOf g = 0 →
            ∀ r c i j, neighborIndex g r c i j = None).
  { intros Hzero r c i j. unfold neighborIndex, JS.rem.
    destruct Hzero as [-> | ->]; simpl; [done|].
    by destruct (numRowsOf g =? 0). }
  assert (Hcount0 : numRowsOf g = 0 ∨ numColsOf g = 0 →
            ∀ r c, countNeighbors g r c = 0).
  { intros Hzero r c. unfold countNeighbors, neighborAlive, offsets.
    cbn [foldl Z.eqb andb]. by rewrite !(Hdegenerate Hzero). }
  split; [|split].
  - unfold countNeighbors, offsets. cbn [foldl Z.eqb andb].
    repeat match goal with
           | |- context [neighborAlive g ?a ?b ?i ?j] =>
               generalize (neighborAlive g a b i j); intros []
           end; lia.
  - intros Hzero. split; [by apply Hcount0|].
    unfold neighborReads, offsets. cbn [foldl Z.eqb andb].
    by rewrite !(Hdegenerate Hzero).
  - intros Hzero. apply Forall_lookup. intros r row' Hr.
    apply Forall_lookup. intros c cell' Hc.
    assert (Hcell : cellAt (updateGrid g) r c = Some cell')
      by (unfold cellAt; by rewrite Hr).
    rewrite cellAt_updateGrid in Hcell.
    destruct (cellAt g r c) as [cell|]; simplify_eq/=.
    rewrite Hcount0 by (by right). by destruct cell.
Qed.

Lemma countNeighbors_bounds_witness :
  allDead (updateGrid [ []; [true; true]; [true; true] ]).
Proof.
  apply (countNeighbors_bounds [ []; [true; true]; [true; true] ] 0 0).
  reflexivity.
Defined.

(** ** A lone cell *)

Lemma wrapHit_window (n l z : Z) :
  2 ≤ n → 0 ≤ z < n → 0 ≤ l < n →
  wrapHit n l (z + 0) = (z =? l)
  ∧ (wrapHit n l (z + -1), wrapHit n l (z + 0), wrapHit n l (z + 1))
    ∈ [ (false, false, false); (true, false, false); (false, true, false);
        (false, false, true); (true, false, true) ].
Proof.
  intros Hn Hz Hl. unfold wrapHit.
  assert (H0 : (z + 0) `mod` n = z) by (rewrite Z.add_0_r; by apply Z.mod_small).
  assert (Hm : (z + -1) `mod` n = if decide (z = 0) then n - 1 else z - 1).
  { destruct (decide (z = 0)) as [-> | Hne].
    - symmetry. apply (Z.mod_unique_pos _ _ (-1)); lia.
    - rewrite Z.mod_small; lia. }
  assert (Hp : (z + 1) `mod` n = if decide (z = n - 1) then 0 else z + 1).
  { destruct (decide (z = n - 1)) as [-> | Hne].
    - replace (n - 1 + 1) with n by lia. apply Z_mod_same_full.
    - rewrite Z.mod_small; lia. }
  rewrite H0, Hm, Hp. split; [done|]. rewrite !elem_of_cons.
  destruct (decide (z = 0)), (decide (z = n - 1));
    destruct (Z.eqb_spec z l);
    repeat match goal with
           | |- context [?a =? ?b] => destruct (Z.eqb_spec a b)
           end; (lia || tauto).
Qed.

Lemma allDead_intro (g : Grid) :
  (∀ r c cell, cellAt g r c = Some cell → cell = false) → allDead g.
Proof.
  intros Hcells. apply Forall_lookup. intros r row Hr.
  apply Forall_lookup. intros c cell Hc.
  apply (Hcells r c). unfold cellAt. by rewrite Hr.
Qed.

(** X14. A lone live cell dies and nothing is born around it: on a
    rectangular grid with at least two rows and two columns whose only live
    cell is at [(lr, lc)], the next generation is all dead.  (With a single
    row the cell is its own neighbour through the wrap-around, see
    [lone_cell_single_row].) *)
Theorem lone_cell_dies (rows cols : nat) (g : Grid) (lr lc : nat) :
  rectangular rows cols g →
  (2 ≤ rows)%nat → (2 ≤ cols)%nat →
  (lr < rows)%nat → (lc < cols)%nat →
  (∀ r c, (r < rows)%nat → (c < cols)%nat →
     cellAt g r c = Some (Nat.eqb r lr && Nat.eqb c lc)) →
  allDead (updateGrid g) ∧ rectangular rows cols (updateGrid g).
Proof.
  intros Hrect Hrows Hcols Hlr Hlc Hone.
  split; [|by apply updateGrid_rectangular].
  apply allDead_intro. intros r c cell' Hcell'.
  rewrite cellAt_updateGrid in Hcell'.
  destruct (cellAt g r c) as [cell|] eqn:Hcell; simplify_eq/=.
  destruct (proj1 (rectangular_cellAt _ _ _ r c Hrect)) as [Hr Hc]; [by eexists|].
  rewrite Hone in Hcell by done. injection Hcell as <-.
  assert (Hlive : ∀ i j, -1 ≤ i ≤ 1 → -1 ≤ j ≤ 1 →
            neighborAlive g (Z.of_nat r) (Z.of_nat c) i j
            = wrapHit (Z.of_nat rows) (Z.of_nat lr) (Z.of_nat r + i)
              && wrapHit (Z.of_nat cols) (Z.of_nat lc) (Z.of_nat c + j)).
  { intros i j Hi Hj.
    rewrite (neighborAlive_rect rows cols g) by (done || lia).
    pose proof (Z.mod_pos_bound (Z.of_nat r + i) (Z.of_nat rows)).
    pose proof (Z.mod_pos_bound (Z.of_nat c + j) (Z.of_nat cols)).
    unfold isLive, wrapHit. cbn [fst snd]. rewrite Hone by lia. simpl.
    f_equal.
    - destruct (Nat.eqb_spec (Z.to_nat ((Z.of_nat r + i) `mod` Z.of_nat rows)) lr),
        (Z.eqb_spec ((Z.of_nat r + i) `mod` Z.of_nat rows) (Z.of_nat lr)); (done || lia).
    - destruct (Nat.eqb_spec (Z.to_nat ((Z.of_nat c + j) `mod` Z.of_nat cols)) lc),
        (Z.eqb_spec ((Z.of_nat c + j) `mod` Z.of_nat cols) (Z.of_nat lc)); (done || lia). }
  unfold countNeighbors, offsets. cbn [foldl Z.eqb andb].
  rewrite !Hlive by lia.
  destruct (wrapHit_window (Z.of_nat rows) (Z.of_nat lr) (Z.of_nat r))
    as [Hr0 Hrw]; [lia..|].
  destruct (wrapHit_window (Z.of_nat cols) (Z.of_nat lc) (Z.of_nat c))
    as [Hc0 Hcw]; [lia..|].
  replace (r =? lr)%nat with (wrapHit (Z.of_nat rows) (Z.of_nat lr) (Z.of_nat r + 0)).
  2:{ rewrite Hr0. destruct (Z.eqb_spec (Z.of_nat r) (Z.of_nat lr)),
        (Nat.eqb_spec r lr); (done || lia). }
  replace (c =? lc)%nat with (wrapHit (Z.of_nat cols) (Z.of_nat lc) (Z.of_nat c + 0)).
  2:{ rewrite Hc0. destruct (Z.eqb_spec (Z.of_nat c) (Z.of_nat lc)),
        (Nat.eqb_spec c lc); (done || lia). }
  rewrite !elem_of_cons, elem_of_nil in Hrw, Hcw.
  destruct Hrw as [Hrw | [Hrw | [Hrw | [Hrw | [Hrw | []]]]]];
    destruct Hcw as [Hcw | [Hcw | [Hcw | [Hcw | [Hcw | []]]]]];
    injection Hrw as -> -> ->; injection Hcw as -> -> ->; reflexivity.
Qed.

Lemma lone_cell_dies_witness :
  allDead (updateGrid [ [false; false]; [false; true] ]).
Proof.
  apply (lone_cell_dies 2 2 [ [false; false]; [false; true] ] 1 1); try lia.
  - split; [reflexivity|]. repeat constructor.
  - intros r c Hr Hc.
    destruct r as [|[|r]]; try lia; destruct c as [|[|c]]; try lia; reflexivity.
Defined.

(** With one row the lone cell counts itself twice and survives. *)
Example lone_cell_single_row :
  updateGrid [ [false; true; false; false] ] = [ [true; true; true; false] ].
Proof. reflexivity. Qed.

(** ** Drawing *)

Lemma drawCell_cases ww wh r c cell :
  drawCell ww wh r c cell
  = if decide (inViewport ww wh r c ∧ cell = true)
    then square (Z.of_nat c * 10) (Z.of_nat r * 10) "RGBA(245, 245, 245, 1)"
    else [].
Proof.
  unfold drawCell, inViewport, square, CELL_SIZE.
  destruct (Z.gtb_spec (Z.of_nat c * 10) ww), (Z.gtb_spec (Z.of_nat r * 10) wh);
    simpl; try (rewrite decide_False; [done|lia]).
  destruct cell; simpl.
  - rewrite decide_True; [done|]. split; [lia|done].
  - rewrite decide_False; [done|]. by intros [_ ?].
Qed.

Lemma elem_of_drawCells ww wh (g : Grid) (d : Draw) :
  d ∈ drawCells ww wh g
  ↔ ∃ r c, cellAt g r c = Some true ∧ inViewport ww wh r c
           ∧ d ∈ square (Z.of_nat c * 10) (Z.of_nat r * 10) "RGBA(245, 245, 245, 1)".
Proof.
  unfold drawCells. rewrite list_elem_of_join. split.
  - intros (l & Hd & Hl). apply elem_of_lookup_imap in Hl as (r & row & -> & Hrow).
    apply list_elem_of_join in Hd as (l & Hd & Hl).
    apply elem_of_lookup_imap in Hl as (c & cell & -> & Hcell).
    rewrite drawCell_cases in Hd.
    destruct (decide _) as [[Hview ->] | _]; [|by apply elem_of_nil in Hd].
    exists r, c. unfold cellAt. by rewrite Hrow.
  - intros (r & c & Hcell & Hview & Hd). unfold cellAt in Hcell.
    destruct (g !! r) as [row|] eqn:Hrow; [|done].
    eexists. split; [|by apply (elem_of_lookup_imap_2 _ _ _ r Hrow)].
    apply list_elem_of_join.
    eexists. split; [|by apply (elem_of_lookup_imap_2 _ _ _ c Hcell)].
    rewrite drawCell_cases, decide_True by done. exact Hd.
Qed.

(** X15. What [drawGrid] paints for the cells: a rectangle is drawn for a
    cell exactly when the cell is alive and passes the viewport test
    (10·col ≤ innerWidth and 10·row ≤ innerHeight, so a cell that starts on
    the window's edge still counts); it is the 10 × 10 square at
    (10·col, 10·row).  An all-dead grid draws no cell at all. *)
Theorem drawCells_live_visible (ww wh : Z) (g : Grid) :
  (∀ x y w h,
     rect x y w h ∈ drawCells ww wh g
     ↔ ∃ r c, cellAt g r c = Some true
              ∧ Z.of_nat c * 10 ≤ ww ∧ Z.of_nat r * 10 ≤ wh
              ∧ x = Z.of_nat c * 10 ∧ y = Z.of_nat r * 10 ∧ w = 10 ∧ h = 10)
  ∧ (allDead g → drawCells ww wh g = []).
Proof.
  split.
  - intros x y w h. rewrite elem_of_drawCells. unfold square, inViewport.
    split.
    + intros (r & c & Hcell & Hview & Hd). exists r, c.
      rewrite !elem_of_cons, elem_of_nil in Hd.
      destruct Hd as [Hd | [Hd | [Hd | [Hd | [Hd | []]]]]]; try discriminate Hd.
      injection Hd as -> -> -> ->. tauto.
    + intros (r & c & Hcell & Hw & Hh & -> & -> & -> & ->). exists r, c.
      split; [done|]. split; [done|]. rewrite !elem_of_cons. tauto.
  - intros Hdead. destruct (drawCells ww wh g) as [|d ds] eqn:Hds; [done|].
    assert (Hd : d ∈ drawCells ww wh g) by (rewrite Hds; apply list_elem_of_here).
    apply elem_of_drawCells in Hd as (r & c & Hcell & _).
    by pose proof (allDead_cellAt _ _ _ _ Hdead Hcell).
Qed.

Lemma drawCells_live_visible_witness :
  let g := [ [false; true]; [true; true] ] in
  rect 10 0 10 10 ∈ drawCells 15 5 g ∧ ¬ rect 10 10 10 10 ∈ drawCells 15 5 g.
Proof.
  intros g. destruct (drawCells_live_visible 15 5 g) as [Hrect _]. split.
  - apply Hrect. exists 0%nat, 1%nat. repeat split; (reflexivity || lia).
  - intros Hin. apply Hrect in Hin as (r & c & _ & _ & Hh & _ & Hy & _). lia.
Defined.

(** X16. The hover highlight is painted last and around the pointer: with
    a canvas, after a mouse move to the pixel (x, y) the drawing is the
    clearing of the 1920 × 1080 surface, the cells, and then one 10 × 10
    square whose corner (X, Y) satisfies X ≤ x < X + 10 and Y ≤ y < Y + 10,
    whatever the state of the cell under it; after the pointer left there
    is no highlight; without a canvas or context nothing is drawn. *)
Theorem drawGrid_hover_last (hasSetShowName : bool) (draws : nat → nat → Q)
    (ww wh : Z) (s : State) (x y : Z) :
  let moved := dispatch hasSetShowName draws (MouseMove x y) s in
  let away := dispatch hasSetShowName draws MouseOut s in
  (∃ X Y,
     drawGrid true ww wh (cells moved) (mouseOverCell moved)
     = clearRect 0 0 1920 1080
         :: drawCells ww wh (cells s) ++ square X Y "rgba(255, 255, 255, 0.2)"
     ∧ X ≤ x < X + 10 ∧ Y ≤ y < Y + 10)
  ∧ drawGrid true ww wh (cells away) (mouseOverCell away)
    = clearRect 0 0 1920 1080 :: drawCells ww wh (cells s)
  ∧ drawGrid false ww wh (cells s) (mouseOverCell s) = [].
Proof.
  intros moved away.
  assert (Hmoved : moved = setMouseOverCell (Some (cellOfPixel x y)) s).
  { unfold moved, dispatch. simpl. by apply settle_same_deps. }
  assert (Hleft : away = setMouseOverCell None s).
  { unfold away, dispatch. simpl. by apply settle_same_deps. }
  rewrite Hmoved, Hleft. simpl. split; [|split; [|done]].
  - exists (x `div` 10 * 10), (y `div` 10 * 10). split; [reflexivity|].
    pose proof (Z.mul_div_le x 10). pose proof (Z.mul_succ_div_gt x 10).
    pose proof (Z.mul_div_le y 10). pose proof (Z.mul_succ_div_gt y 10). lia.
  - unfold drawGrid. simpl. by rewrite app_nil_r.
Qed.

(** X17. The drawing shows nothing of what lies outside the window: a
    click whose cell fails the viewport test does not change what the cell
    loop paints; and when that cell is a cell of the grid the click does
    change the grid: the cell is negated, so the grid differs from the one
    before. *)
Theorem drawCells_click_outside (ww wh : Z) (g : Grid) (x y : Z) (r c : nat) :
  cellOfPixel x y = (Z.of_nat r, Z.of_nat c) →
  ¬ inViewport ww wh r c →
  drawCells ww wh (toggleCell g x y) = drawCells ww wh g
  ∧ (∀ cell, cellAt g r c = Some cell →
       cellAt (toggleCell g x y) r c = Some (negb cell)
       ∧ toggleCell g x y ≠ g)
  ∧ (cellAt g r c = None → toggleCell g x y = g).
Proof.
  intros Hpixel Hout.
  assert (Hhit : ∀ cell, cellAt g r c = Some cell →
            cellAt (toggleCell g x y) r c = Some (negb cell)).
  { intros cell Hcell. injection Hpixel as Hr Hc. unfold CELL_SIZE in *.
    rewrite cellAt_toggleCell, Hcell. simpl. by rewrite decide_True. }
  split; [|split].
  - injection Hpixel as Hr Hc.
    unfold drawCells, toggleCell, cellOfPixel. cbn [fst snd].
    f_equal. apply list_eq. intros r'. rewrite !list_lookup_imap.
    destruct (g !! r') as [row|]; simpl; [|done]. f_equal.
    destruct (Z.eqb_spec (Z.of_nat r') (y `div` CELL_SIZE)) as [Hr' | _]; [|done].
    f_equal. apply list_eq. intros c'. rewrite !list_lookup_imap.
    destruct (row !! c') as [cell|]; simpl; [|done]. f_equal.
    destruct (Z.eqb_spec (Z.of_nat c') (x `div` CELL_SIZE)) as [Hc' | _]; [|done].
    assert (r' = r) as -> by lia. assert (c' = c) as -> by lia.
    rewrite !drawCell_cases. rewrite !decide_False; [done|tauto..].
  - intros cell Hcell. split; [by apply Hhit|].
    intros Heq. pose proof (Hhit cell Hcell) as Hneg.
    rewrite Heq, Hcell in Hneg. by destruct cell.
  - intros Hnone. injection Hpixel as Hr Hc. unfold CELL_SIZE in *.
    apply grid_ext_len; [apply toggleCell_length|].
    intros r' c'. rewrite cellAt_toggleCell.
    destruct (cellAt g r' c') as [cell|] eqn:Hcell; simpl; [|done].
    rewrite decide_False; [done|]. intros [Hr' Hc'].
    assert (r' = r) by lia. assert (c' = c) by lia. congruence.
Qed.

Lemma drawCells_click_outside_witness :
  let g := [ [false; true; false]; [true; true; false] ] in
  toggleCell g 25 5 ≠ g ∧ drawCells 15 100 (toggleCell g 25 5) = drawCells 15 100 g.
Proof.
  intros g.
  destruct (drawCells_click_outside 15 100 g 25 5 0 2) as (Hdraw & Hgrid & _).
  - reflexivity.
  - unfold inViewport. simpl. lia.
  - split; [|exact Hdraw]. apply (Hgrid false). reflexivity.
Defined.

(** ** The "p" key, the effect cascade and the mount *)

(** X18. The "p" key flips [running] and nothing else: the state after it
    is the state before with [running] negated, every other field as it
    was, so a second press undoes the first; pressed while [running] is
    false it brings the timer to life even when the user paused or the
    widget is hidden (the next tick advances the grid), and from a state
    where [running] is derived it always leads to one where it is not. *)
Theorem p_key_flips_running (hasSetShowName : bool) (draws : nat → nat → Q)
    (s : State) :
  let s1 := dispatch hasSetShowName draws (KeyDown "p") s in
  s1 = mkState (cells s) (mouseOverCell s) (systemRunning s) (userRunning s)
               (negb (running s)) (showControls s) (inView s) (showName s)
  ∧ dispatch hasSetShowName draws (KeyDown "p") s1 = s
  ∧ (running s = false →
     dispatch hasSetShowName draws Tick s1
     = mkState (updateGrid (cells s)) (mouseOverCell s) (systemRunning s)
               (userRunning s) true (showControls s) (inView s) (showName s))
  ∧ (runningDerived s → ¬ runningDerived s1).
Proof.
  intros s1.
  assert (Hp : ∀ s0, dispatch hasSetShowName draws (KeyDown "p") s0
                     = setRunning (negb (running s0)) s0).
  { intros s0. unfold dispatch. simpl. unfold handleKeyDown. simpl.
    by apply settle_same_deps. }
  unfold s1. rewrite !Hp. simpl.
  split; [reflexivity|]. split; [|split].
  - rewrite negb_involutive. by destruct s.
  - intros Hrun. unfold dispatch. simpl. rewrite Hrun. simpl.
    by rewrite settle_same_deps.
  - unfold runningDerived. simpl. intros <-. by destruct (running s).
Qed.

Lemma p_key_flips_running_witness :
  let s := mkState [ [false; true; false]; [false; true; false]; [false; true; false] ]
                   None true false false false true false in
  runningDerived s ∧ userRunning s = false
  ∧ cells (dispatch false (λ _ _, 0%Q) Tick (dispatch false (λ _ _, 0%Q) (KeyDown "p") s))
    = updateGrid (cells s).
Proof.
  intros s. split; [reflexivity|]. split; [reflexivity|].
  destruct (p_key_flips_running false (λ _ _, 0%Q) s) as (_ & _ & Htick & _).
  rewrite Htick; reflexivity.
Defined.

(** X19. The effects cannot loop: whatever the two renders are, after the
    second round of effects no dependency of either effect has changed, so
    a further round leaves the state as it is; and the settled state has
    [systemRunning] equal to the new visibility whenever the visibility
    changed. *)
Theorem effects_settle (old new : State) :
  runEffects (runEffects old new) (settle old new) = settle old new
  ∧ settle (settle old new) (settle old new) = settle old new
  ∧ (inView new ≠ inView old → systemRunning (settle old new) = inView new)
  ∧ cells (settle old new) = cells new.
Proof.
  split; [apply runEffects_quiescent|]. split; [by apply settle_same_deps|].
  split; [|apply settle_cells].
  intros Hv. destruct (settle_fields old new) as (_ & _ & _ & _ & _ & ->).
  destruct (Bool.eqb_spec (inView old) (inView new)); congruence.
Qed.

Lemma effects_settle_witness :
  let old := mkState [ [true] ] None true true true false true false in
  systemRunning (settle old (setInView false old)) = false
  ∧ running (settle old (setInView false old)) = false.
Proof.
  intros old.
  destruct (effects_settle old (setInView false old)) as (_ & _ & Hsys & _).
  split; [apply Hsys; discriminate | reflexivity].
Defined.

(** X20. Right after the mount the simulation runs exactly when the widget
    is in view: [userRunning] is true, [systemRunning] and [running] equal
    the initial visibility, the menu is hidden, no cell is hovered and the
    grid is the random one; a widget mounted out of view starts running at
    the first report that it is visible. *)
Theorem mount_state (draws : nat → nat → Q) (inView0 showName0 : bool) :
  let s := mount draws inView0 showName0 in
  userRunning s = true
  ∧ systemRunning s = inView0 ∧ running s = inView0
  ∧ showControls s = false ∧ mouseOverCell s = None
  ∧ cells s = randomGrid draws
  ∧ (∀ hasSetShowName,
       running (dispatch hasSetShowName draws (InViewChanged true) s) = true
       ∧ running (dispatch hasSetShowName draws (InViewChanged false) s) = false).
Proof.
  intros s.
  assert (Hsync : synced s) by apply mount_synced.
  split; [by destruct inView0|]. split; [by destruct inView0|].
  split; [by destruct inView0|]. split; [by destruct inView0|].
  split; [by destruct inView0|]. split; [apply mount_cells|].
  intros hasName. rewrite !(dispatch_visibility _ _ _ s Hsync).
  unfold s. by destruct inView0.
Qed.

(** ** The transition on the torus *)

Section Scroll.

Variables (rows cols : nat) (g : Grid) (k : nat).
Hypothesis Hrows : (0 < rows)%nat.
Hypothesis Hcols : (0 < cols)%nat.
Hypothesis Hrect : rectangular rows cols g.

Lemma scrollRows_rectangular : rectangular rows cols (scrollRows k g).
Proof using Hrect.
  destruct Hrect as [Hlen Hall]. unfold scrollRows.
  split; [by rewrite length_rotate|].
  apply Forall_forall. intros row Hrow. apply elem_of_rotate in Hrow.
  exact (proj1 (Forall_forall _ _) Hall row Hrow).
Qed.

Lemma scrollCols_rectangular : rectangular rows cols (scrollCols k g).
Proof using Hrect.
  destruct Hrect as [Hlen Hall]. unfold scrollCols.
  split; [by rewrite length_fmap|].
  apply Forall_fmap, Forall_forall. intros row Hrow. simpl.
  rewrite length_rotate. exact (proj1 (Forall_forall _ _) Hall row Hrow).
Qed.

Lemma cellAt_scrollRows (r c : nat) :
  (r < rows)%nat →
  cellAt (scrollRows k g) r c
  = cellAt g (Z.to_nat ((Z.of_nat k + Z.of_nat r) `mod` Z.of_nat rows)) c.
Proof using Hrows Hcols Hrect.
  intros Hr. destruct Hrect as [Hlen _]. unfold cellAt, scrollRows.
  rewrite lookup_rotate_r by lia. unfold rotate_nat_add. by rewrite Hlen.
Qed.

Lemma cellAt_scrollCols (r c : nat) :
  (c < cols)%nat →
  cellAt (scrollCols k g) r c
  = cellAt g r (Z.to_nat ((Z.of_nat k + Z.of_nat c) `mod` Z.of_nat cols)).
Proof using Hrows Hcols Hrect.
  intros Hc. unfold cellAt, scrollCols. rewrite list_lookup_fmap.
  destruct (g !! r) as [row|] eqn:Hrow; simpl; [|done].
  pose proof (rectangular_row _ _ _ _ _ Hrect Hrow) as Hlen.
  rewrite lookup_rotate_r by lia. unfold rotate_nat_add. by rewrite Hlen.
Qed.

Lemma wrap_shift (n a b i : Z) :
  0 < n →
  (a + (b + i) `mod` n) `mod` n = ((a + b) `mod` n + i) `mod` n.
Proof.
  intros Hn. rewrite Zplus_mod_idemp_r, Zplus_mod_idemp_l. f_equal. lia.
Qed.

Lemma countNeighbors_scrollRows (r c : nat) :
  (r < rows)%nat → (c < cols)%nat →
  countNeighbors (scrollRows k g) (Z.of_nat r) (Z.of_nat c)
  = countNeighbors g
      (Z.of_nat (Z.to_nat ((Z.of_nat k + Z.of_nat r) `mod` Z.of_nat rows)))
      (Z.of_nat c).
Proof using Hrows Hcols Hrect.
  intros Hr Hc.
  pose proof (Z.mod_pos_bound (Z.of_nat k + Z.of_nat r) (Z.of_nat rows)).
  assert (Hlive : ∀ i j, -1 ≤ i ≤ 1 → -1 ≤ j ≤ 1 →
            neighborAlive (scrollRows k g) (Z.of_nat r) (Z.of_nat c) i j
            = neighborAlive g
                (Z.of_nat (Z.to_nat ((Z.of_nat k + Z.of_nat r) `mod` Z.of_nat rows)))
                (Z.of_nat c) i j).
  { intros i j Hi Hj.
    rewrite (neighborAlive_rect rows cols (scrollRows k g))
      by (done || lia || apply scrollRows_rectangular).
    rewrite (neighborAlive_rect rows cols g) by (done || lia).
    pose proof (Z.mod_pos_bound (Z.of_nat r + i) (Z.of_nat rows)).
    unfold isLive. cbn [fst snd]. rewrite cellAt_scrollRows by lia.
    rewrite !Z2Nat.id by lia. by rewrite wrap_shift by lia. }
  unfold countNeighbors, offsets. cbn [foldl Z.eqb andb].
  by rewrite !Hlive by lia.
Qed.

Lemma countNeighbors_scrollCols (r c : nat) :
  (r < rows)%nat → (c < cols)%nat →
  countNeighbors (scrollCols k g) (Z.of_nat r) (Z.of_nat c)
  = countNeighbors g (Z.of_nat r)
      (Z.of_nat (Z.to_nat ((Z.of_nat k + Z.of_nat c) `mod` Z.of_nat cols))).
Proof using Hrows Hcols Hrect.
  intros Hr Hc.
  pose proof (Z.mod_pos_bound (Z.of_nat k + Z.of_nat c) (Z.of_nat cols)).
  assert (Hlive : ∀ i j, -1 ≤ i ≤ 1 → -1 ≤ j ≤ 1 →
            neighborAlive (scrollCols k g) (Z.of_nat r) (Z.of_nat c) i j
            = neighborAlive g (Z.of_nat r)
                (Z.of_nat (Z.to_nat ((Z.of_nat k + Z.of_nat c) `mod` Z.of_nat cols)))
                i j).
  { intros i j Hi Hj.
    rewrite (neighborAlive_rect rows cols (scrollCols k g))
      by (done || lia || apply scrollCols_rectangular).
    rewrite (neighborAlive_rect rows cols g) by (done || lia).
    pose proof (Z.mod_pos_bound (Z.of_nat c + j) (Z.of_nat cols)).
    unfold isLive. cbn [fst snd]. rewrite cellAt_scrollCols by lia.
    rewrite !Z2Nat.id by lia. by rewrite wrap_shift by lia. }
  unfold countNeighbors, offsets. cbn [foldl Z.eqb andb].
  by rewrite !Hlive by lia.
Qed.

End Scroll.

(** X21. The transition does not know where the edges are: on a non-empty
    rectangular grid, scrolling the rows (or the columns) around the torus
    by any amount and then taking the next generation gives the same grid
    as taking the next generation first and scrolling afterwards. *)
Theorem updateGrid_scroll (rows cols : nat) (g : Grid) (k : nat) :
  (0 < rows)%nat →
  rectangular rows cols g →
  updateGrid (scrollRows k g) = scrollRows k (updateGrid g)
  ∧ updateGrid (scrollCols k g) = scrollCols k (updateGrid g).
Proof.
  intros Hrows Hrect.
  pose proof (updateGrid_rectangular _ _ _ Hrect) as Hrect'.
  split; apply grid_ext_len.
  - unfold scrollRows. by rewrite updateGrid_length, !length_rotate, updateGrid_length.
  - intros r c. rewrite cellAt_updateGrid.
    destruct (decide (r < rows ∧ c < cols)%nat) as [[Hr Hc] | Hout].
    + pose proof (Z.mod_pos_bound (Z.of_nat k + Z.of_nat r) (Z.of_nat rows)).
      assert (Hcols : (0 < cols)%nat) by lia.
      rewrite (cellAt_scrollRows rows cols g k Hrows Hcols Hrect) by done.
      rewrite (cellAt_scrollRows rows cols (updateGrid g) k Hrows Hcols Hrect') by done.
      rewrite cellAt_updateGrid.
      by rewrite (countNeighbors_scrollRows rows cols g k) by (done || lia).
    + assert (H1 : cellAt (scrollRows k g) r c = None).
      { destruct (cellAt (scrollRows k g) r c) eqn:Hcell; [|done].
        exfalso. apply Hout.
        apply (rectangular_cellAt rows cols (scrollRows k g));
          [by apply scrollRows_rectangular | by eexists]. }
      assert (H2 : cellAt (scrollRows k (updateGrid g)) r c = None).
      { destruct (cellAt (scrollRows k (updateGrid g)) r c) eqn:Hcell; [|done].
        exfalso. apply Hout.
        apply (rectangular_cellAt rows cols (scrollRows k (updateGrid g)));
          [by apply scrollRows_rectangular | by eexists]. }
      by rewrite H1, H2.
  - unfold scrollCols. by rewrite updateGrid_length, !length_fmap, updateGrid_length.
  - intros r c. rewrite cellAt_updateGrid.
    destruct (decide (r < rows ∧ c < cols)%nat) as [[Hr Hc] | Hout].
    + pose proof (Z.mod_pos_bound (Z.of_nat k + Z.of_nat c) (Z.of_nat cols)).
      assert (Hcols : (0 < cols)%nat) by lia.
      rewrite (cellAt_scrollCols rows cols g k Hrows Hcols Hrect) by done.
      rewrite (cellAt_scrollCols rows cols (updateGrid g) k Hrows Hcols Hrect') by done.
      rewrite cellAt_updateGrid.
      by rewrite (countNeighbors_scrollCols rows cols g k) by (done || lia).
    + assert (H1 : cellAt (scrollCols k g) r c = None).
      { destruct (cellAt (scrollCols k g) r c) eqn:Hcell; [|done].
        exfalso. apply Hout.
        apply (rectangular_cellAt rows cols (scrollCols k g));
          [by apply scrollCols_rectangular | by eexists]. }
      assert (H2 : cellAt (scrollCols k (updateGrid g)) r c = None).
      { destruct (cellAt (scrollCols k (updateGrid g)) r c) eqn:Hcell; [|done].
        exfalso. apply Hout.
        apply (rectangular_cellAt rows cols (scrollCols k (updateGrid g)));
          [by apply scrollCols_rectangular | by eexists]. }
      by rewrite H1, H2.
Qed.

Lemma updateGrid_scroll_witness :
  let g := [ [false; true;  false; false];
             [false; false; true;  false];
             [true;  true;  true;  false];
             [false; false; false; false] ] in
  updateGrid (scrollRows 3 g) = scrollRows 3 (updateGrid g)
  ∧ updateGrid (scrollCols 2 g) = scrollCols 2 (updateGrid g).
Proof.
  intros g.
  assert (Hrect : rectangular 4 4 g) by (split; [reflexivity|repeat constructor]).
  destruct (updateGrid_scroll 4 4 g 3) as [Hrows _]; [lia|exact Hrect|].
  destruct (updateGrid_scroll 4 4 g 2) as [_ Hcols]; [lia|exact Hrect|].
  split; [exact Hrows | exact Hcols].
Defined.
